(** * picture-pick: the round/selection engine of [routes/index.js]

    A shallow embedding of the Express router of the picture-pick
    application: the in-memory document [appData], the active-project
    resolution, and the request handlers that toggle selections and move a
    project from one round to the next.  Every handler is a computation in a
    small state-and-exception monad over the process state, written in the
    order of the JavaScript statements it embeds. *)

From Stdlib Require Import ZArith Ascii String.
From stdpp Require Import base option list strings gmap pretty.

Open Scope Z_scope.

(** ** JavaScript values *)

(** The numbers stored in [currentRound].  A JavaScript number is an IEEE 754
    double; the ones that [parseInt], [+ 1], [- 1] and [++] give are the
    doubles with an integer value, [NaN] and the two infinities.  [Int z] is
    the double whose value is the integer [z]. *)
Inductive number : Type :=
  | Int (z : Z)
  | NaN
  | Infinity (negative : bool).

Global Instance number_eq_dec : EqDecision number.
Proof. solve_decision. Defined.

(** The double nearest to the integer [x], a tie going to the even
    significand.  Every integer of magnitude below 2^53 is a double; from
    there on a double is a 53-bit significand [q] times a power of two
    [ulp], so that 2^53 + 1 is read 2^53 and 2^53 + 3 is read 2^53 + 4. *)
Definition to_double (x : Z) : Z :=
  let a := Z.abs x in
  if a <? 2 ^ 53 then x
  else
    let ulp := 2 ^ (Z.log2 a - 52) in
    let q := a / ulp in
    let r := a mod ulp in
    let q' :=
      if 2 * r <? ulp then q
      else if ulp <? 2 * r then q + 1
      else if Z.even q then q else q + 1 in
    Z.sgn x * (q' * ulp).

(** The number value of the integer [x]: the nearest double, or an infinity
    when that is beyond the largest double. *)
Definition number_of_Z (x : Z) : number :=
  let y := to_double x in
  if 2 ^ 1024 <=? Z.abs y then Infinity (x <? 0) else Int y.

(** [n + 1] and [n++]: the double nearest to the exact sum, which for a
    double [z] is never beyond the largest double. *)
Definition succ (n : number) : number :=
  match n with
  | Int z => Int (to_double (z + 1))
  | NaN => NaN
  | Infinity b => Infinity b
  end.

(** [n - 1]. *)
Definition pred (n : number) : number :=
  match n with
  | Int z => Int (to_double (z - 1))
  | NaN => NaN
  | Infinity b => Infinity b
  end.

(** [ToString] on a number, which is how [obj[n]] turns [n] into a property
    key: the decimal numeral of an integer.  JavaScript writes an integer of
    magnitude 10^21 or more with an exponent instead; the decimal numeral
    stands for that key, which is likewise a different one for every
    number. *)
Definition ToString (n : number) : string :=
  match n with
  | Int z => pretty z
  | NaN => "NaN"
  | Infinity false => "Infinity"
  | Infinity true => "-Infinity"
  end.

(** A scalar field of [req.body] as [body-parser] delivers it: absent, or a
    JSON scalar, or a form string.  [VNumber] is a JSON number with an
    integer value of magnitude below 10^21, whose string is its decimal
    numeral, or the infinity that [JSON.parse] reads from a numeral beyond
    the largest double. *)
Inductive value : Type :=
  | VUndefined
  | VNull
  | VBool (b : bool)
  | VNumber (n : number)
  | VString (s : string).

(** [ToBoolean]: what [if (v)], [!v] and [v && ...] test. *)
Definition truthy (v : value) : bool :=
  match v with
  | VUndefined | VNull => false
  | VBool b => b
  | VNumber (Int z) => negb (z =? 0)
  | VNumber NaN => false
  | VNumber (Infinity _) => true
  | VString s => negb (String.eqb s "")
  end.

(** A string-valued request field ([req.query.file], [req.body.fileName],
    [req.body.projectId], ...): [None] is [undefined]. *)
Definition truthy_str (o : option string) : bool :=
  match o with
  | Some s => negb (String.eqb s "")
  | None => false
  end.

Definition value_to_string (v : value) : string :=
  match v with
  | VUndefined => "undefined"
  | VNull => "null"
  | VBool true => "true"
  | VBool false => "false"
  | VNumber n => ToString n
  | VString s => s
  end.

(** *** [parseInt] with no radix argument *)

(** The white space that [parseInt] skips.  A string is the sequence of its
    UTF-8 bytes.  Among the ASCII characters: TAB, LF, VT, FF, CR and
    space. *)
Definition is_white_space (c : ascii) : bool :=
  let n := Z.of_nat (nat_of_ascii c) in
  ((9 <=? n) && (n <=? 13)) || (n =? 32).

(** In two bytes: U+00A0, the no-break space. *)
Definition is_white_space2 (c1 c2 : ascii) : bool :=
  let n1 := Z.of_nat (nat_of_ascii c1) in
  let n2 := Z.of_nat (nat_of_ascii c2) in
  (n1 =? 194) && (n2 =? 160).

(** In three bytes: U+1680, U+2000 to U+200A, the line and paragraph
    separators U+2028 and U+2029, U+202F, U+205F, U+3000 and the byte order
    mark U+FEFF. *)
Definition is_white_space3 (c1 c2 c3 : ascii) : bool :=
  let n1 := Z.of_nat (nat_of_ascii c1) in
  let n2 := Z.of_nat (nat_of_ascii c2) in
  let n3 := Z.of_nat (nat_of_ascii c3) in
  ((n1 =? 225) && (n2 =? 154) && (n3 =? 128))
  || ((n1 =? 226) && (n2 =? 128)
      && (((128 <=? n3) && (n3 <=? 138))
          || (n3 =? 168) || (n3 =? 169) || (n3 =? 175)))
  || ((n1 =? 226) && (n2 =? 129) && (n3 =? 159))
  || ((n1 =? 227) && (n2 =? 128) && (n3 =? 128))
  || ((n1 =? 239) && (n2 =? 187) && (n3 =? 191)).

Fixpoint skip_white_space (s : string) : string :=
  match s with
  | String c1 r1 =>
      if is_white_space c1 then skip_white_space r1
      else
        match r1 with
        | String c2 r2 =>
            if is_white_space2 c1 c2 then skip_white_space r2
            else
              match r2 with
              | String c3 r3 =>
                  if is_white_space3 c1 c2 c3 then skip_white_space r3
                  else s
              | EmptyString => s
              end
        | EmptyString => s
        end
  | EmptyString => s
  end.

Definition digit_of (c : ascii) : option Z :=
  let n := Z.of_nat (nat_of_ascii c) in
  if (48 <=? n) && (n <=? 57) then Some (n - 48)
  else if (97 <=? n) && (n <=? 122) then Some (n - 87)
  else if (65 <=? n) && (n <=? 90) then Some (n - 55)
  else None.

Definition radix_digit (R : Z) (c : ascii) : option Z :=
  match digit_of c with
  | Some d => if d <? R then Some d else None
  | None => None
  end.

(** The longest prefix of radix-[R] digits, as an integer; [acc] is [None]
    until a first digit has been read. *)
Fixpoint parse_digits (R : Z) (acc : option Z) (s : string) : option Z :=
  match s with
  | String c r =>
      match radix_digit R c with
      | Some d => parse_digits R (Some (R * default 0 acc + d)) r
      | None => acc
      end
  | EmptyString => acc
  end.

(** The digits are read as an exact integer, of which [parseInt] returns
    the number value. *)
Definition parseInt_string (s : string) : number :=
  let s1 := skip_white_space s in
  let '(sign, s2) :=
    match s1 with
    | String "-"%char r => (-1, r)
    | String "+"%char r => (1, r)
    | _ => (1, s1)
    end in
  let '(R, s3) :=
    match s2 with
    | String "0"%char (String "x"%char r) => (16, r)
    | String "0"%char (String "X"%char r) => (16, r)
    | _ => (10, s2)
    end in
  match parse_digits R None s3 with
  | Some m => number_of_Z (sign * m)
  | None => NaN
  end.

Definition parseInt (v : value) : number :=
  parseInt_string (value_to_string v).

(** ** The data model *)

(** One entry of [appData.projects].  [roundSelections] is the object
    [{ "1": [...], "2": [...] }]; its keys are property names, that is
    strings.  [filePath] and [xSelected] are [None] when [updateSettings]
    stored an absent field. *)
Record Project : Type := mkProject {
  id : string;
  name : string;
  filePath : option string;
  xSelected : option string;
  currentRound : number;
  roundSelections : gmap string (list string);
  lastFileName : string
}.

(** [{ activeProjectId, projects }] *)
Record AppData : Type := mkAppData {
  activeProjectId : string;
  projects : list Project
}.

(** [project.lastFileName = v] *)
Definition set_lastFileName (v : string) (p : Project) : Project :=
  mkProject (id p) (name p) (filePath p) (xSelected p) (currentRound p)
    (roundSelections p) v.

(** [project.currentRound = n] *)
Definition set_currentRound (n : number) (p : Project) : Project :=
  mkProject (id p) (name p) (filePath p) (xSelected p) n
    (roundSelections p) (lastFileName p).

(** [project.roundSelections[n] = l] *)
Definition set_roundSelection (n : number) (l : list string) (p : Project)
  : Project :=
  mkProject (id p) (name p) (filePath p) (xSelected p) (currentRound p)
    (<[ToString n := l]> (roundSelections p)) (lastFileName p).

(** [project.xSelected = x; project.filePath = f] *)
Definition set_settings (x f : option string) (p : Project) : Project :=
  mkProject (id p) (name p) f x (currentRound p) (roundSelections p)
    (lastFileName p).

(** [project.roundSelections[n]], [None] for [undefined]. *)
Definition roundSelection (n : number) (p : Project) : option (list string) :=
  roundSelections p !! ToString n.

(** [project.roundSelections[n] || []]: an array is truthy even when it is
    empty, so the alternative is taken only for an absent entry. *)
Definition roundSelection_or_empty (n : number) (p : Project) : list string :=
  default [] (roundSelection n p).

(** [a.includes(x)] on an array of strings. *)
Definition includes (x : string) (a : list string) : bool :=
  bool_decide (x ∈ a).

(** [a.filter(f => f !== x)] *)
Definition without (x : string) (a : list string) : list string :=
  filter (λ f, f ≠ x) a.

(** The default document of [loadData]. *)
Definition defaultProject : Project :=
  {| id := "default";
     name := "默认项目";
     filePath := Some "C:\Users\admin\Documents\MuMu共享文件夹\Pictures\Telegram";
     xSelected := Some "X选项内容";
     currentRound := Int 1;
     roundSelections := ∅;
     lastFileName := "" |}.

Definition defaultData : AppData :=
  {| activeProjectId := "default"; projects := [defaultProject] |}.

(** ** The process state and the handler monad *)

(** The module-level [appData], and the documents handed to [saveData] so
    far, most recent first. *)
Record World : Type := mkWorld {
  appData : AppData;
  written : list AppData
}.

(** A statement sequence either completes with a value or throws the
    [TypeError] of a property read on [undefined]; what it assigned before
    throwing stays assigned. *)
Inductive result (A : Type) : Type :=
  | Ok (a : A)
  | TypeError.
Global Arguments Ok {A} a.
Global Arguments TypeError {A}.

Definition M (A : Type) : Type := World → result A * World.

Global Instance M_ret : MRet M := λ A a w, (Ok a, w).

Global Instance M_bind : MBind M := λ A B f m w,
  match m w with
  | (Ok a, w') => f a w'
  | (TypeError, w') => (TypeError, w')
  end.

Definition throw {A : Type} : M A := λ w, (TypeError, w).

Definition read_appData : M AppData := λ w, (Ok (appData w), w).

Definition write_appData (d : AppData) : M () := λ w,
  (Ok (), mkWorld d (written w)).

(** [saveData(appData)] *)
Definition saveData : M () := λ w,
  (Ok (), mkWorld (appData w) (appData w :: written w)).

(** A project object is referred to by its position in [appData.projects]. *)
Definition deref (i : nat) : M Project :=
  d ← read_appData;
  match projects d !! i with
  | Some p => mret p
  | None => throw
  end.

(** An assignment to a field of the project object at position [i]. *)
Definition assign (i : nat) (f : Project → Project) : M () :=
  d ← read_appData;
  write_appData (mkAppData (activeProjectId d) (alter f i (projects d))).

Definition skip : M () := mret ().

(** ** Reading the image directory *)

(** [path.extname] on a directory entry (a name without separators): the
    suffix that starts at the last dot, unless that dot is the first
    character or the name is [".."]. *)
Fixpoint last_dot_suffix (s : string) : option string :=
  match s with
  | EmptyString => None
  | String c r =>
      match last_dot_suffix r with
      | Some e => Some e
      | None => if Ascii.eqb c "." then Some s else None
      end
  end.

Definition extname (file : string) : string :=
  match file with
  | String "."%char r =>
      if String.eqb r "." then "" else default "" (last_dot_suffix r)
  | _ => default "" (last_dot_suffix file)
  end.

Definition lower_char (c : ascii) : ascii :=
  let n := nat_of_ascii c in
  if ((65 <=? n) && (n <=? 90))%nat then ascii_of_nat (n + 32) else c.

Fixpoint toLowerCase (s : string) : string :=
  match s with
  | EmptyString => EmptyString
  | String c r => String (lower_char c) (toLowerCase r)
  end.

Definition imageExtensions : list string :=
  [".jpg"; ".jpeg"; ".png"; ".gif"; ".bmp"; ".webp"].

(** [readdir dir] is the outcome of [fs.readdirSync(dir)] guarded by
    [fs.existsSync(dir)]: [None] when the directory is missing or the read
    throws.  An [undefined] path does not exist. *)
Definition getImagesFromDir (readdir : string → option (list string))
    (dirPath : option string) : list string :=
  match dirPath with
  | None => []
  | Some dir =>
      match readdir dir with
      | None => []
      | Some files =>
          filter (λ file, toLowerCase (extname file) ∈ imageExtensions) files
      end
  end.

(** ** Responses *)

(** The object handed to [res.json]. *)
Record JsonBody : Type := mkJson {
  success : bool;
  selected : option bool;
  requireConfirmation : option bool;
  message : option string;
  error : option string
}.

(** The locals handed to [res.render('index', ...)], apart from [maxRound]
    and [currentMode], which only the template reads. *)
Record IndexView : Type := mkView {
  view_project : option Project;
  view_projects : list Project;
  view_fileName : string;
  view_imageList : list string;
  view_currentRoundSelections : list string
}.

Inductive response : Type :=
  | Render (v : IndexView)
  | Redirect (url : string)
  | Json (body : JsonBody)
  | SendFile (dir name : string)
  | NotFound.

(** [{ success: false }] *)
Definition json_failure : JsonBody := mkJson false None None None None.
(** [{ success: true }] *)
Definition json_success : JsonBody := mkJson true None None None None.
(** [{ success: false, message: "No images selected" }] *)
Definition json_EmptySelection : JsonBody :=
  mkJson false None None (Some "No images selected") None.
(** [{ success: false, requireConfirmation: true, message: ... }] *)
Definition json_RequiresConfirmation : JsonBody :=
  mkJson false None (Some true)
    (Some "Next round already has selections. Overwrite?") None.
(** [{ success: false, error: e.message }] *)
Definition json_error (msg : string) : JsonBody :=
  mkJson false None None None (Some msg).
(** [{ success: true, selected: b }] *)
Definition json_selected (b : bool) : JsonBody :=
  mkJson true (Some b) None None None.

(** A response that tells the caller that the request was turned down. *)
Definition reports_failure (r : response) : Prop :=
  match r with
  | Json body => success body = false
  | NotFound => True
  | Render _ | Redirect _ | SendFile _ _ => False
  end.

(** ** The router *)

(** [getActiveProject()].  The result refers to the project object inside
    [appData.projects]; [None] is [undefined]. *)
Definition getActiveProject : M (option nat) :=
  d ← read_appData;
  match list_find (λ p, id p = activeProjectId d) (projects d) with
  | Some (i, _) => mret (Some i)
  | None =>
      if bool_decide (0 < length (projects d))%nat then
        first ← deref 0;
        write_appData (mkAppData (id first) (projects d));;
        saveData;;
        mret (Some 0%nat)
      else mret None
  end.

(** The candidate list of [GET /] (the block under "Get Image List based on
    Round"). *)
Definition resolveCandidates (readdir : string → option (list string))
    (project : Project) : list string :=
  if decide (currentRound project = Int 1) then
    getImagesFromDir readdir (filePath project)
  else
    roundSelection_or_empty (pred (currentRound project)) project.

(** [router.get('/')] with [req.query.file = file]. *)
Definition index (readdir : string → option (list string))
    (file : option string) : M response :=
  r ← getActiveProject;
  match r with
  | None =>
      d ← read_appData;
      mret (Render (mkView None (projects d) "" [] []))
  | Some i =>
      (if truthy_str file then
         assign i (set_lastFileName (default "" file));;
         saveData
       else skip);;
      project ← deref i;
      let fileName := lastFileName project in
      let imageList := resolveCandidates readdir project in
      (if roundSelection (currentRound project) project is None then
         assign i (set_roundSelection (currentRound project) [])
       else skip);;
      project ← deref i;
      let currentRoundSelections :=
        roundSelection_or_empty (currentRound project) project in
      fileName ←
        (if (String.eqb fileName "" || negb (includes fileName imageList))
            && bool_decide (0 < length imageList)%nat then
           let fileName := default "" (head imageList) in
           assign i (set_lastFileName fileName);;
           saveData;;
           mret fileName
         else if bool_decide (length imageList = 0%nat) then mret ""
         else mret fileName);
      project ← deref i;
      d ← read_appData;
      mret (Render (mkView (Some project) (projects d) fileName imageList
                      currentRoundSelections))
  end.

(** [router.post('/updateSettings')] *)
Definition updateSettings (xSelected' filePath' : option string) : M response :=
  r ← getActiveProject;
  (match r with
   | Some i => assign i (set_settings xSelected' filePath');; saveData
   | None => skip
   end);;
  mret (Redirect "/").

(** [router.post('/createProject')]; [uuid] is what [crypto.randomUUID()]
    returns. *)
Definition createProject (uuid : string) (name' filePath' : option string)
  : M response :=
  let newProject :=
    {| id := uuid;
       name := if truthy_str name' then default "" name' else "新项目";
       filePath := Some (if truthy_str filePath' then default "" filePath' else "");
       xSelected := Some "";
       currentRound := Int 1;
       roundSelections := ∅;
       lastFileName := "" |} in
  d ← read_appData;
  write_appData (mkAppData (activeProjectId d) (projects d ++ [newProject]));;
  d ← read_appData;
  write_appData (mkAppData (id newProject) (projects d));;
  saveData;;
  mret (Redirect "/").

(** [p.id === projectId] for a [projectId] that may be [undefined]. *)
Definition id_is (projectId : option string) (p : Project) : Prop :=
  projectId = Some (id p).

Global Instance id_is_dec projectId p : Decision (id_is projectId p).
Proof. unfold id_is. apply _. Defined.

(** [router.post('/switchProject')] *)
Definition switchProject (projectId : option string) : M response :=
  d ← read_appData;
  (if list_find (id_is projectId) (projects d) is Some _ then
     write_appData (mkAppData (default "" projectId) (projects d));;
     saveData
   else skip);;
  mret (Redirect "/").

(** [router.post('/switchRound')] *)
Definition switchRound (round : value) : M response :=
  r ← getActiveProject;
  (match r with
   | Some i =>
       if truthy round then
         assign i (set_currentRound (parseInt round));;
         assign i (set_lastFileName "");;
         saveData
       else skip
   | None => skip
   end);;
  mret (Redirect "/").

(** [router.post('/deleteProject')] *)
Definition deleteProject (projectId : option string) : M response :=
  d ← read_appData;
  if bool_decide (length (projects d) ≤ 1)%nat then
    mret (Redirect "/")
  else
    write_appData
      (mkAppData (activeProjectId d)
         (filter (λ p, ¬ id_is projectId p) (projects d)));;
    d ← read_appData;
    (if bool_decide (Some (activeProjectId d) = projectId) then
       first ← deref 0;
       write_appData (mkAppData (id first) (projects d))
     else skip);;
    saveData;;
    mret (Redirect "/").

(** [router.get('/image')]; [present] is [fs.existsSync(fullPath)].
    [SendFile dir name] is the call [res.sendFile(path.join(dir, name))];
    what Express does with the path from there on, which includes throwing
    when the path is not an absolute one, is not part of [image]. *)
Definition image (imageName : option string) (present : bool) : M response :=
  r ← getActiveProject;
  match r with
  | None => mret NotFound
  | Some i =>
      project ← deref i;
      match filePath project with
      | Some dir =>
          if truthy_str imageName && negb (String.eqb dir "") && present
          then mret (SendFile dir (default "" imageName))
          else mret NotFound
      | None => mret NotFound
      end
  end.

(** [router.post('/toggleSelection')] *)
Definition toggleSelection (fileName : option string) : M response :=
  r ← getActiveProject;
  match r with
  | None => mret (Json json_failure)
  | Some i =>
      match fileName with
      | None => mret (Json json_failure)
      | Some fileName =>
          if String.eqb fileName "" then mret (Json json_failure)
          else
            project ← deref i;
            (if roundSelection (currentRound project) project is None then
               assign i (set_roundSelection (currentRound project) [])
             else skip);;
            project ← deref i;
            let selections :=
              roundSelection_or_empty (currentRound project) project in
            (if includes fileName selections then
               assign i (set_roundSelection (currentRound project)
                           (without fileName selections))
             else
               assign i (set_roundSelection (currentRound project)
                           (selections ++ [fileName])));;
            saveData;;
            project ← deref i;
            mret (Json (json_selected
                          (includes fileName
                             (roundSelection_or_empty (currentRound project)
                                project))))
      end
  end.

(** [router.post('/finishRound')].  The snapshot goes to a file of the
    project directory, outside the process state; [failure] is the message
    of the exception that building the path or writing the file raised, if
    any. *)
Definition finishRound (failure : option string) : M response :=
  r ← getActiveProject;
  match r with
  | None => mret (Json json_failure)
  | Some i =>
      match failure with
      | None => mret (Json json_success)
      | Some msg => mret (Json (json_error msg))
      end
  end.

(** [a && a.length > 0] for an entry of [roundSelections]. *)
Definition has_selections (a : option (list string)) : bool :=
  match a with
  | Some l => bool_decide (0 < length l)%nat
  | None => false
  end.

(** [router.post('/nextRound')] with [req.body.force = force]. *)
Definition nextRound (force : value) : M response :=
  r ← getActiveProject;
  match r with
  | None => mret (Json json_failure)
  | Some i =>
      project ← deref i;
      let currentSelections :=
        roundSelection_or_empty (currentRound project) project in
      if bool_decide (length currentSelections = 0%nat) then
        mret (Json json_EmptySelection)
      else
        let nextRound := succ (currentRound project) in
        if has_selections (roundSelection nextRound project)
           && negb (truthy force) then
          mret (Json json_RequiresConfirmation)
        else
          (if truthy force || has_selections (roundSelection nextRound project)
           then assign i (set_roundSelection nextRound [])
           else skip);;
          project ← deref i;
          assign i (set_currentRound (succ (currentRound project)));;
          assign i (set_lastFileName "");;
          saveData;;
          mret (Json json_success)
  end.

(** ** Requests and runs of the process *)

Inductive request : Type :=
  | GetIndex (readdir : string → option (list string)) (file : option string)
  | GetImage (imageName : option string) (present : bool)
  | PostUpdateSettings (xSelected' filePath' : option string)
  | PostCreateProject (uuid : string) (name' filePath' : option string)
  | PostSwitchProject (projectId : option string)
  | PostSwitchRound (round : value)
  | PostDeleteProject (projectId : option string)
  | PostToggleSelection (fileName : option string)
  | PostFinishRound (failure : option string)
  | PostNextRound (force : value).

Definition handle (r : request) : M response :=
  match r with
  | GetIndex readdir file => index readdir file
  | GetImage imageName present => image imageName present
  | PostUpdateSettings x f => updateSettings x f
  | PostCreateProject uuid n f => createProject uuid n f
  | PostSwitchProject projectId => switchProject projectId
  | PostSwitchRound round => switchRound round
  | PostDeleteProject projectId => deleteProject projectId
  | PostToggleSelection fileName => toggleSelection fileName
  | PostFinishRound failure => finishRound failure
  | PostNextRound force => nextRound force
  end.

(** The process state once a request has been served, whether its handler
    returned or threw. *)
Definition serve (r : request) (w : World) : World := (handle r w).2.

(** The state after the module has been loaded for the first time: there is
    no [projects.json], [loadData] returns the default document, the
    migration finds nothing to change in it, and it is saved. *)
Definition startup : World := (saveData (mkWorld defaultData [])).2.

(** The states the process goes through when every request it serves is
    admissible in the state it arrives in. *)
Inductive reachable (admissible : World → request → Prop) : World → Prop :=
  | reachable_startup : reachable admissible startup
  | reachable_serve w r :
      reachable admissible w → admissible w r →
      reachable admissible (serve r w).

(** [crypto.randomUUID()] returns an identifier that no project carries
    yet. *)
Definition fresh_uuid (w : World) (r : request) : Prop :=
  match r with
  | PostCreateProject uuid _ _ => uuid ∉ id <$> projects (appData w)
  | _ => True
  end.

(** A [switchRound] request names a round: its [round] field, when given,
    parses to an integer that is at least 1. *)
Definition names_a_round (w : World) (r : request) : Prop :=
  match r with
  | PostSwitchRound round =>
      truthy round = true → ∃ z, parseInt round = Int z ∧ 1 ≤ z
  | _ => True
  end.

(** The active project as [getActiveProject] resolves it in [w]: its
    position [i], the object [p] there, and the state [w'] that the
    resolution leaves. *)
Definition active (w : World) (i : nat) (p : Project) (w' : World) : Prop :=
  getActiveProject w = (Ok (Some i), w') ∧ projects (appData w') !! i = Some p.

(** [currentSelections]: the selections of the round that is open. *)
Definition currentSelections (p : Project) : list string :=
  roundSelection_or_empty (currentRound p) p.

(** ** Closed forms of the state changes *)

(** The state after [assign i f]. *)
Definition assigned (i : nat) (f : Project → Project) (w : World) : World :=
  mkWorld (mkAppData (activeProjectId (appData w))
             (alter f i (projects (appData w))))
    (written w).

(** The state after [saveData(appData)]. *)
Definition saved (w : World) : World :=
  mkWorld (appData w) (appData w :: written w).

(** The project that a successful [nextRound] leaves in place of [p]. *)
Definition advanced (force : value) (p : Project) : Project :=
  let next := succ (currentRound p) in
  set_lastFileName ""
    (set_currentRound next
       (if truthy force || has_selections (roundSelection next p)
        then set_roundSelection next [] p else p)).


(** ** Example states *)

(** A project at round 2 that kept [c.png] there and still carries an
    earlier selection for round 3. *)
Definition revisited_project : Project :=
  {| id := "default";
     name := "revisited";
     filePath := Some "/pictures";
     xSelected := Some "";
     currentRound := Int 2;
     roundSelections := {[ "1" := ["c.png"; "d.png"]; "2" := ["c.png"];
                           "3" := ["x.png"]; "4" := ["x.png"] ]};
     lastFileName := "c.png" |}.

Definition revisited : World :=
  mkWorld (mkAppData "default" [revisited_project]) [].

(** A project at round 2^53, the least round whose successor is not a
    double, with a selection there and an entry under the key of
    2^53 + 1. *)
Definition saturated_project : Project :=
  {| id := "default";
     name := "saturated";
     filePath := Some "/pictures";
     xSelected := Some "";
     currentRound := Int (2 ^ 53);
     roundSelections := {[ "9007199254740992" := ["a.png"];
                           "9007199254740993" := ["x.png"] ]};
     lastFileName := "a.png" |}.

Definition saturated : World :=
  mkWorld (mkAppData "default" [saturated_project]) [].

(** A project at round 2^53 + 2, the least round whose predecessor is not
    a double, with the selection that was made at round 2^53. *)
Definition beyond_project : Project :=
  {| id := "default";
     name := "beyond";
     filePath := Some "/pictures";
     xSelected := Some "";
     currentRound := Int (2 ^ 53 + 2);
     roundSelections := {[ "9007199254740992" := ["a.png"] ]};
     lastFileName := "" |}.

(** A document whose [activeProjectId] names no project. *)
Definition dangling : World :=
  mkWorld (mkAppData "gone" [revisited_project; defaultProject]) [].

(** ** Closed forms of the handlers on the active project *)

(** The file that [GET /] leaves in [lastFileName] when the stored name is
    [stored] and the candidates are [imageList]. *)
Definition autoselect (stored : string) (imageList : list string) : string :=
  if (String.eqb stored "" || negb (includes stored imageList))
     && bool_decide (0 < length imageList)%nat
  then default "" (head imageList)
  else stored.

(** The project that [GET /] leaves in place of the active project [p]. *)
Definition viewed (readdir : string → option (list string))
    (file : option string) (p : Project) : Project :=
  let stored := if truthy_str file then default "" file else lastFileName p in
  let p1 :=
    if roundSelection (currentRound p) p is None
    then set_roundSelection (currentRound p) [] p else p in
  set_lastFileName (autoselect stored (resolveCandidates readdir p)) p1.

(** The selections of a round after [fileName] has been toggled in
    [selections]. *)
Definition toggle (fileName : string) (selections : list string) : list string :=
  if includes fileName selections then without fileName selections
  else selections ++ [fileName].

(** The project that a successful [toggleSelection] leaves in place of
    [p]. *)
Definition toggled (fileName : string) (p : Project) : Project :=
  set_roundSelection (currentRound p)
    (toggle fileName (currentSelections p)) p.

(** The project that an effective [switchRound] leaves in place of [p]. *)
Definition switched (round : value) (p : Project) : Project :=
  set_lastFileName "" (set_currentRound (parseInt round) p).

(** ** What a request does to the project list *)

(** How the round of the active project [p] relates to the round of the
    object [q] that request [r] leaves in its place. *)
Definition round_change (r : request) (p q : Project) : Prop :=
  currentRound q = currentRound p
  ∨ (∃ force, r = PostNextRound force ∧ currentRound q = succ (currentRound p))
  ∨ (∃ round, r = PostSwitchRound round ∧ truthy round = true
              ∧ currentRound q = parseInt round).

(** The project lists that serving [r] in state [w] can leave: the list as
    it was, the list with the active project replaced by an object of the
    same [id], the list with a new project at its end, or the list without
    the projects of a given [id]. *)
Inductive change (w : World) (r : request) : list Project → Prop :=
  | change_none :
      change w r (projects (appData w))
  | change_active i p q :
      projects (appData w) !! i = Some p →
      id q = id p →
      round_change r p q →
      change w r (<[i := q]> (projects (appData w)))
  | change_create uuid n f q :
      r = PostCreateProject uuid n f →
      id q = uuid →
      currentRound q = Int 1 →
      change w r (projects (appData w) ++ [q])
  | change_delete projectId :
      r = PostDeleteProject projectId →
      (1 < length (projects (appData w)))%nat →
      change w r (filter (λ p, ¬ id_is projectId p) (projects (appData w))).

(** [currentRound] is an integer that is at least 1. *)
Definition round_ok (p : Project) : Prop :=
  ∃ z, currentRound p = Int z ∧ 1 ≤ z.

(** Any request at all. *)
Definition any_request (w : World) (r : request) : Prop := True.

(** A document with at least one project and no two projects of the same
    [id]. *)
Definition well_formed (d : AppData) : Prop :=
  projects d ≠ [] ∧ NoDup (id <$> projects d).

(** ** Loading and migrating the stored document *)

(** A project as [JSON.parse] finds it in [projects.json].  A document
    written by an earlier version has no [roundSelections] and may carry
    the flat fields [roundImages] and [currentRoundSelections]; an absent
    field is [None]. *)
Module Stored.
Record project : Type := mkProject {
  id : string;
  name : string;
  filePath : option string;
  xSelected : option string;
  currentRound : number;
  roundSelections : option (gmap string (list string));
  roundImages : option (list string);
  currentRoundSelections : option (list string);
  lastFileName : string
}.

Record data : Type := mkData {
  activeProjectId : string;
  projects : list project
}.
End Stored.

(** The body of the [forEach] under "Data Migration". *)
Definition migrate_project (p : Stored.project) : Stored.project :=
  let roundSelections' :=
    match Stored.roundSelections p with
    | Some rs => rs
    | None =>
        match Stored.currentRoundSelections p with
        | Some l =>
            if bool_decide (0 < length l)%nat
            then <[ToString (Stored.currentRound p) := l]> ∅
            else ∅
        | None => ∅
        end
    end in
  Stored.mkProject (Stored.id p) (Stored.name p) (Stored.filePath p)
    (Stored.xSelected p) (Stored.currentRound p) (Some roundSelections')
    None None (Stored.lastFileName p).

(** [appData.projects.forEach(...)] *)
Definition migrate (d : Stored.data) : Stored.data :=
  Stored.mkData (Stored.activeProjectId d) (migrate_project <$> Stored.projects d).

(** The project object that the router works on; after the migration
    [roundSelections] is always there. *)
Definition project_of (p : Stored.project) : Project :=
  {| id := Stored.id p;
     name := Stored.name p;
     filePath := Stored.filePath p;
     xSelected := Stored.xSelected p;
     currentRound := Stored.currentRound p;
     roundSelections := default ∅ (Stored.roundSelections p);
     lastFileName := Stored.lastFileName p |}.

Definition appData_of (d : Stored.data) : AppData :=
  {| activeProjectId := Stored.activeProjectId d;
     projects := project_of <$> Stored.projects d |}.

(** The default document of [loadData], as a stored document. *)
Definition defaultStored : Stored.data :=
  Stored.mkData "default"
    [Stored.mkProject (id defaultProject) (name defaultProject)
       (filePath defaultProject) (xSelected defaultProject)
       (currentRound defaultProject) (Some ∅) None None
       (lastFileName defaultProject)].

(** [loadData()]; [file] is the parsed content of [projects.json], [None]
    when the file is missing or reading or parsing it throws. *)
Definition loadData (file : option Stored.data) : Stored.data :=
  match file with
  | Some d => d
  | None => defaultStored
  end.

(** The module body: [appData = loadData()], the migration, and
    [saveData(appData)]. *)
Definition boot (file : option Stored.data) : World :=
  (saveData (mkWorld (appData_of (migrate (loadData file))) [])).2.

(** A stored project in the current format. *)
Definition current_format (p : Stored.project) : Prop :=
  is_Some (Stored.roundSelections p)
  ∧ Stored.roundImages p = None
  ∧ Stored.currentRoundSelections p = None.

(** A project stored by the first version of the application: no
    [roundSelections], and the selection of its round in a flat list. *)
Definition legacy_project : Stored.project :=
  Stored.mkProject "old" "legacy" (Some "/pictures") (Some "x") (Int 2) None
    (Some ["a.png"; "b.png"]) (Some ["a.png"]) "a.png".

(** ** File names *)

(** Whether a dot occurs in [s]. *)
Fixpoint has_dot (s : string) : bool :=
  match s with
  | EmptyString => false
  | String c r => Ascii.eqb c "." || has_dot r
  end.

(** ** The index page in closed form *)

(** The file name that [GET /] starts from: the requested one, or the one
    stored in the project. *)
Definition requested (file : option string) (p : Project) : string :=
  if truthy_str file then default "" file else lastFileName p.

(** The [fileName] that [GET /] hands to the template. *)
Definition shown (stored : string) (imageList : list string) : string :=
  if (String.eqb stored "" || negb (includes stored imageList))
     && bool_decide (0 < length imageList)%nat
  then default "" (head imageList)
  else if bool_decide (length imageList = 0%nat) then "" else stored.

(** ** The ways a request changes the document *)

(** The object that [createProject] pushes. *)
Definition created (uuid : string) (name' filePath' : option string) : Project :=
  {| id := uuid;
     name := if truthy_str name' then default "" name' else "新项目";
     filePath := Some (if truthy_str filePath' then default "" filePath' else "");
     xSelected := Some "";
     currentRound := Int 1;
     roundSelections := ∅;
     lastFileName := "" |}.

(** What a handler can make of the active project [p]. *)
Inductive project_step : Project → Project → Prop :=
  | step_viewed readdir file p :
      project_step p (viewed readdir file p)
  | step_settings x f p :
      project_step p (set_settings x f p)
  | step_switched round p :
      truthy round = true →
      project_step p (switched round p)
  | step_toggled f p :
      f ≠ "" →
      project_step p (toggled f p)
  | step_advanced force p :
      currentSelections p ≠ [] →
      has_selections (roundSelection (succ (currentRound p)) p)
        && negb (truthy force) = false →
      project_step p (advanced force p).

(** The projects that [deleteProject] keeps. *)
Definition remaining (projectId : option string) (ps : list Project)
  : list Project :=
  filter (λ p, ¬ id_is projectId p) ps.

(** The documents that serving [r] in state [w] can leave in memory. *)
Inductive serves (w : World) (r : request) : AppData → Prop :=
  | serves_unchanged :
      serves w r (appData w)
  | serves_resolved res w0 :
      getActiveProject w = (res, w0) →
      serves w r (appData w0)
  | serves_active i p w0 q :
      active w i p w0 →
      project_step p q →
      serves w r (mkAppData (activeProjectId (appData w0))
                    (<[i := q]> (projects (appData w0))))
  | serves_created uuid n f :
      r = PostCreateProject uuid n f →
      serves w r (mkAppData uuid (projects (appData w) ++ [created uuid n f]))
  | serves_switched projectId p :
      r = PostSwitchProject (Some projectId) →
      p ∈ projects (appData w) →
      id p = projectId →
      serves w r (mkAppData projectId (projects (appData w)))
  | serves_deleted projectId :
      r = PostDeleteProject projectId →
      (1 < length (projects (appData w)))%nat →
      serves w r
        (mkAppData
           (if bool_decide (Some (activeProjectId (appData w)) = projectId)
            then default (activeProjectId (appData w))
                   (id <$> head (remaining projectId (projects (appData w))))
            else activeProjectId (appData w))
           (remaining projectId (projects (appData w)))).

(** The last document handed to [saveData] is the document in memory. *)
Definition persisted (w : World) : Prop :=
  head (written w) = Some (appData w).

(** The selections of a project are lists without repetition and without
    the empty name. *)
Definition selections_ok (p : Project) : Prop :=
  ∀ key l, roundSelections p !! key = Some l → NoDup l ∧ "" ∉ l.

(** [activeProjectId] is the [id] of one of the projects. *)
Definition active_exists (d : AppData) : Prop :=
  ∃ p, p ∈ projects d ∧ id p = activeProjectId d.

(** The requests whose handler starts with [getActiveProject()]. *)
Definition uses_active (r : request) : Prop :=
  match r with
  | PostCreateProject _ _ _ | PostSwitchProject _ | PostDeleteProject _ => False
  | _ => True
  end.

(** The requests served by [router.get('/')]. *)
Definition is_index (r : request) : Prop :=
  match r with
  | GetIndex _ _ => True
  | _ => False
  end.

Global Instance uses_active_dec (r : request) : Decision (uses_active r).
Proof. destruct r; cbn; apply _. Defined.

Global Instance is_index_dec (r : request) : Decision (is_index r).
Proof. destruct r; cbn; apply _. Defined.

(** A document in which two projects carry the same [id], as a file edited
    by hand can hold. *)
Definition twins : World :=
  mkWorld (mkAppData "default" [defaultProject; revisited_project]) [].
(** * Properties *)

(** ** Three runs from the first start *)

(** Keep [a.png] in round 1, then advance: round 2 has [a.png] as its only
    candidate. *)
Example keep_then_advance :
  let w1 := serve (PostToggleSelection (Some "a.png")) startup in
  let w2 := serve (PostNextRound (VBool false)) w1 in
  (toggleSelection (Some "a.png") startup).1 = Ok (Json (json_selected true))
  ∧ (nextRound (VBool false) w1).1 = Ok (Json json_success)
  ∧ (currentRound <$> projects (appData w2)) = [Int 2]
  ∧ (resolveCandidates (λ _, Some ["a.png"; "b.jpg"])
       <$> projects (appData w2)) = [["a.png"]].
Proof. repeat split. Qed.

(** A stale selection for round 3 is only overwritten on request. *)
Example overwrite_on_request :
  (nextRound (VBool false) revisited).1 = Ok (Json json_RequiresConfirmation)
  ∧ (nextRound (VBool true) revisited).1 = Ok (Json json_success)
  ∧ ((λ p, (currentRound p, roundSelection (Int 3) p, roundSelection (Int 4) p))
       <$> projects (appData (serve (PostNextRound (VBool true)) revisited)))
    = [(Int 3, Some [], Some ["x.png"])].
Proof. repeat split. Qed.

(** A jump to round 5 of a project that has no data for round 4. *)
Example jump_to_round_five :
  let w1 := serve (PostSwitchRound (VString "5")) startup in
  (currentRound <$> projects (appData w1)) = [Int 5]
  ∧ (resolveCandidates (λ _, Some ["a.png"]) <$> projects (appData w1)) = [[]].
Proof. repeat split. Qed.

(** ** Running the monad *)

Lemma bind_Ok {A B : Type} (m : M A) (f : A → M B) (w w' : World) (a : A) :
  m w = (Ok a, w') → (m ≫= f) w = f a w'.
Proof. unfold mbind, M_bind. by intros ->. Qed.

Lemma deref_Some (i : nat) (p : Project) (w : World) :
  projects (appData w) !! i = Some p → deref i w = (Ok p, w).
Proof.
  intros Hp. unfold deref, mbind, M_bind, read_appData. by rewrite Hp.
Qed.

Lemma assign_run (i : nat) (f : Project → Project) (w : World) :
  assign i f w = (Ok (), assigned i f w).
Proof. done. Qed.

Lemma saveData_run (w : World) : saveData w = (Ok (), saved w).
Proof. done. Qed.

Lemma assigned_lookup (i : nat) (f : Project → Project) (w : World) (p : Project) :
  projects (appData w) !! i = Some p →
  projects (appData (assigned i f w)) !! i = Some (f p).
Proof. intros Hp. cbn. by rewrite list_lookup_alter_eq, Hp. Qed.

Lemma saved_lookup (w : World) (i : nat) :
  projects (appData (saved w)) !! i = projects (appData w) !! i.
Proof. done. Qed.

(** ** Resolution of the active project *)

Lemma getActiveProject_found (w : World) (i : nat) (p : Project) :
  list_find (λ p, id p = activeProjectId (appData w)) (projects (appData w))
    = Some (i, p) →
  getActiveProject w = (Ok (Some i), w).
Proof.
  intros Hfind. unfold getActiveProject, mbind, M_bind, read_appData.
  by rewrite Hfind.
Qed.

Lemma getActiveProject_fallback (w : World) (first : Project) (rest : list Project) :
  list_find (λ p, id p = activeProjectId (appData w)) (projects (appData w))
    = None →
  projects (appData w) = first :: rest →
  getActiveProject w
  = (Ok (Some 0%nat),
     saved (mkWorld (mkAppData (id first) (projects (appData w))) (written w))).
Proof.
  intros Hfind Hps. unfold getActiveProject, mbind, M_bind, read_appData.
  rewrite Hfind, Hps. cbn. unfold deref, mbind, M_bind, read_appData. cbn.
  rewrite bool_decide_eq_true_2 by lia. by rewrite Hps.
Qed.

Lemma getActiveProject_empty (w : World) :
  projects (appData w) = [] → getActiveProject w = (Ok None, w).
Proof.
  intros Hps. unfold getActiveProject, mbind, M_bind, read_appData.
  by rewrite Hps.
Qed.

(** The three ways [getActiveProject] can go. *)
Lemma getActiveProject_cases (w : World) :
  (∃ i p, list_find (λ p, id p = activeProjectId (appData w))
            (projects (appData w)) = Some (i, p)
          ∧ getActiveProject w = (Ok (Some i), w))
  ∨ (∃ first rest, projects (appData w) = first :: rest
       ∧ list_find (λ p, id p = activeProjectId (appData w))
           (projects (appData w)) = None
       ∧ getActiveProject w
         = (Ok (Some 0%nat),
            saved (mkWorld (mkAppData (id first) (projects (appData w)))
                     (written w))))
  ∨ (projects (appData w) = [] ∧ getActiveProject w = (Ok None, w)).
Proof.
  destruct (list_find (λ p, id p = activeProjectId (appData w))
              (projects (appData w))) as [[i p]|] eqn:Hfind.
  - left. exists i, p. split; [done|]. by eapply getActiveProject_found.
  - destruct (projects (appData w)) as [|first rest] eqn:Hps.
    + right; right. split; [done|]. by apply getActiveProject_empty.
    + right; left. exists first, rest. split; [done|]. split; [done|].
      rewrite <- Hps. eapply getActiveProject_fallback; [|done].
      by rewrite Hps.
Qed.

(** Resolution never touches the projects themselves, and never throws. *)
Lemma getActiveProject_projects (w w' : World) (r : result (option nat)) :
  getActiveProject w = (r, w') →
  projects (appData w') = projects (appData w) ∧ ∃ o, r = Ok o.
Proof.
  intros Hrun.
  destruct (getActiveProject_cases w)
    as [(i & p & _ & Hr)|[(first & rest & _ & _ & Hr)|[_ Hr]]];
    rewrite Hr in Hrun; simplify_eq; eauto.
Qed.

Lemma active_projects (w w' : World) (i : nat) (p : Project) :
  active w i p w' → projects (appData w') = projects (appData w).
Proof. intros [Hrun _]. by apply getActiveProject_projects in Hrun as [? _]. Qed.

Lemma active_lookup (w w' : World) (i : nat) (p : Project) :
  active w i p w' → projects (appData w) !! i = Some p.
Proof. intros Hact. rewrite <- (active_projects _ _ _ _ Hact). apply Hact. Qed.

(** Once resolved, the active project resolves to itself, in a state that
    no longer changes. *)
Lemma active_stable (w w' : World) (i : nat) (p : Project) :
  active w i p w' → getActiveProject w' = (Ok (Some i), w').
Proof.
  intros [Hrun Hp].
  destruct (getActiveProject_cases w)
    as [(j & q & _ & Hr)|[(first & rest & Hps & _ & Hr)|[_ Hr]]];
    rewrite Hr in Hrun; simplify_eq.
  - done.
  - eapply (getActiveProject_found _ 0%nat first). cbn. rewrite Hps. cbn.
    by rewrite decide_True.
Qed.

(** ** Advancing to the next round *)


(** ** Property keys *)

(** A decimal numeral is none of the words [NaN], [Infinity] and
    [-Infinity]: whatever digits are put in front of [s], the first of them
    is not the first character of the word [t]. *)
Lemma pretty_N_go_not_word (t : string) (x : N) (s : string) :
  (∀ d r, String (pretty_N_char d) r ≠ t) →
  s ≠ t → pretty_N_go x s ≠ t.
Proof.
  intros Ht. revert s. induction (N.lt_wf_0 x) as [x _ IH]. intros s Hs.
  destruct (decide (x = 0%N)) as [->|Hx].
  - by rewrite pretty_N_go_0.
  - rewrite pretty_N_go_step by lia. apply IH; [|apply Ht].
    apply N.div_lt; lia.
Qed.

Lemma pretty_positive_not_word (t : string) (x : positive) :
  (∀ d r, String (pretty_N_char d) r ≠ t) →
  t ≠ "" →
  pretty (Z.pos x) ≠ t.
Proof.
  intros Ht Hne.
  unfold pretty, pretty_Z, pretty, pretty_positive, pretty, pretty_N.
  case_decide; [done|]. by apply pretty_N_go_not_word.
Qed.

Lemma pretty_N_char_not_letter (c : ascii) (t : string) :
  (c = "N" ∨ c = "I" ∨ c = "-")%char →
  ∀ d r, String (pretty_N_char d) r ≠ String c t.
Proof.
  intros Hc d r. unfold pretty_N_char.
  destruct Hc as [->|[->| ->]]; repeat case_match; discriminate.
Qed.

Lemma pretty_Z_not_word (z : Z) :
  pretty z ≠ "NaN" ∧ pretty z ≠ "Infinity" ∧ pretty z ≠ "-Infinity".
Proof.
  destruct z as [|x|x]; [done| |].
  - repeat split; (apply pretty_positive_not_word; [|done]);
      apply pretty_N_char_not_letter; auto.
  - repeat split; [done|done|].
    change (pretty (Z.neg x)) with ("-" +:+ pretty (Z.pos x)).
    intros [= Heq]. revert Heq. apply pretty_positive_not_word; [|done].
    apply pretty_N_char_not_letter; auto.
Qed.

(** Distinct round numbers are distinct keys of [roundSelections]. *)
Global Instance ToString_inj : Inj (=) (=) ToString.
Proof.
  intros [x| |[|]] [y| |[|]] Heq; cbn in Heq; try done.
  - f_equal. by apply (inj pretty).
  - by destruct (pretty_Z_not_word x) as (? & _).
  - by destruct (pretty_Z_not_word x) as (_ & _ & ?).
  - by destruct (pretty_Z_not_word x) as (_ & ? & _).
  - by destruct (pretty_Z_not_word y) as (? & _).
  - by destruct (pretty_Z_not_word y) as (_ & _ & ?).
  - by destruct (pretty_Z_not_word y) as (_ & ? & _).
Qed.

(** ** Arithmetic on round numbers *)

(** An integer of magnitude below 2^53 is a double. *)
Lemma to_double_small (x : Z) : Z.abs x < 2 ^ 53 → to_double x = x.
Proof.
  intros Hx. unfold to_double.
  destruct (Z.ltb_spec (Z.abs x) (2 ^ 53)); [done|lia].
Qed.

(** Rounding keeps a positive integer positive. *)
Lemma to_double_positive (x : Z) : 1 ≤ x → 1 ≤ to_double x.
Proof.
  intros Hx. unfold to_double.
  destruct (Z.ltb_spec (Z.abs x) (2 ^ 53)) as [|Hbig]; [done|].
  rewrite Z.abs_eq in * by lia. rewrite Z.sgn_pos by lia.
  assert (53 ≤ Z.log2 x) as Hlog.
  { rewrite <- (Z.log2_pow2 53) by lia. by apply Z.log2_le_mono. }
  set (ulp := 2 ^ (Z.log2 x - 52)).
  assert (0 < ulp) as Hulp by (apply Z.pow_pos_nonneg; lia).
  assert (ulp ≤ x) as Hle.
  { trans (2 ^ Z.log2 x); [apply Z.pow_le_mono_r; lia|].
    apply Z.log2_spec. lia. }
  assert (0 < x / ulp) as Hq by (apply Z.div_str_pos; lia).
  repeat case_match; nia.
Qed.

(** [N + 1] is exact for every integer [N] from -2^53 to 2^53 - 1. *)
Lemma succ_exact (N : Z) : - 2 ^ 53 ≤ N < 2 ^ 53 → succ (Int N) = Int (N + 1).
Proof.
  intros HN. cbn [succ]. f_equal.
  destruct (decide (N + 1 = 2 ^ 53)) as [->|Hne]; [by vm_compute|].
  apply to_double_small. lia.
Qed.

(** [N - 1] is exact for every integer [N] from -2^53 + 1 to 2^53. *)
Lemma pred_exact (N : Z) : - 2 ^ 53 < N ≤ 2 ^ 53 → pred (Int N) = Int (N - 1).
Proof.
  intros HN. cbn [pred]. f_equal.
  destruct (decide (N - 1 = - 2 ^ 53)) as [->|Hne]; [by vm_compute|].
  apply to_double_small. lia.
Qed.

(** ** Symbolic execution of handler bodies *)

Lemma list_alter_insert_at {A : Type} (f : A → A) (l : list A) (i : nat) (x : A) :
  l !! i = Some x → alter f i l = <[i := f x]> l.
Proof.
  intros Hx. apply list_eq. intros j. destruct (decide (i = j)) as [->|Hne].
  - rewrite list_lookup_alter_eq, Hx. cbn.
    by rewrite list_lookup_insert_eq by by eapply lookup_lt_Some.
  - by rewrite list_lookup_alter_ne, list_lookup_insert_ne.
Qed.

Lemma skip_run (w : World) : skip w = (Ok (), w).
Proof. done. Qed.

(** [lookup_project Hp] finds the project at the position of [Hp] after a
    series of assignments and saves; [run Hp] executes the statements at the
    head of a handler body. *)
Ltac lookup_project Hp :=
  first
    [ exact Hp
    | eapply assigned_lookup; lookup_project Hp
    | rewrite saved_lookup; lookup_project Hp ].

Lemma read_appData_run (w : World) : read_appData w = (Ok (appData w), w).
Proof. done. Qed.

Lemma bind_mret {A B : Type} (a : A) (f : A → M B) (w : World) :
  (mret a ≫= f) w = f a w.
Proof. done. Qed.

Lemma bind_assoc {A B C : Type} (m : M A) (f : A → M B) (g : B → M C)
    (w : World) :
  ((m ≫= f) ≫= g) w = (m ≫= λ a, f a ≫= g) w.
Proof.
  unfold mbind, M_bind. destruct (m w) as [[a|] w']; [|done].
  by destruct (f a w') as [[b|] w''].
Qed.

Ltac run Hp :=
  repeat first
    [ rewrite bind_assoc
    | rewrite bind_mret
    | erewrite bind_Ok by apply read_appData_run
    | erewrite bind_Ok by apply assign_run
    | erewrite bind_Ok by apply saveData_run
    | erewrite bind_Ok by apply skip_run
    | erewrite bind_Ok by (apply deref_Some; lookup_project Hp) ].

(** ** Advancing to the next round *)

Lemma length_zero_empty (l : list string) :
  bool_decide (length l = 0%nat) = bool_decide (l = []).
Proof. apply bool_decide_ext. by destruct l. Qed.

Lemma nextRound_empty (w w0 : World) (i : nat) (p : Project) (force : value) :
  active w i p w0 →
  currentSelections p = [] →
  nextRound force w = (Ok (Json json_EmptySelection), w0).
Proof.
  intros [Hrun Hp] Hsel. unfold nextRound.
  rewrite (bind_Ok _ _ _ _ _ Hrun). run Hp.
  fold (currentSelections p). by rewrite Hsel.
Qed.

Lemma nextRound_confirm (w w0 : World) (i : nat) (p : Project) (force : value) :
  active w i p w0 →
  currentSelections p ≠ [] →
  has_selections (roundSelection (succ (currentRound p)) p)
    && negb (truthy force) = true →
  nextRound force w = (Ok (Json json_RequiresConfirmation), w0).
Proof.
  intros [Hrun Hp] Hsel Hstop. unfold nextRound.
  rewrite (bind_Ok _ _ _ _ _ Hrun). run Hp.
  fold (currentSelections p).
  rewrite length_zero_empty, bool_decide_eq_false_2 by done.
  by rewrite Hstop.
Qed.

Lemma nextRound_advance (w w0 : World) (i : nat) (p : Project) (force : value) :
  active w i p w0 →
  currentSelections p ≠ [] →
  has_selections (roundSelection (succ (currentRound p)) p)
    && negb (truthy force) = false →
  ∃ w1, nextRound force w = (Ok (Json json_success), w1)
        ∧ projects (appData w1)
          = <[i := advanced force p]> (projects (appData w0))
        ∧ activeProjectId (appData w1) = activeProjectId (appData w0)
        ∧ written w1 = appData w1 :: written w0.
Proof.
  intros [Hrun Hp] Hsel Hgo. unfold nextRound.
  rewrite (bind_Ok _ _ _ _ _ Hrun). run Hp.
  fold (currentSelections p).
  rewrite length_zero_empty, bool_decide_eq_false_2 by done.
  rewrite Hgo. unfold advanced.
  destruct (truthy force || has_selections _) eqn:Hclear; run Hp;
    (eexists; split; [reflexivity|]; cbn; split; [|done]);
    rewrite !list_alter_alter_eq; by erewrite list_alter_insert_at by exact Hp.
Qed.

Lemma has_selections_Some (l : list string) :
  l ≠ [] → has_selections (Some l) = true.
Proof. intros Hl. cbn. apply bool_decide_eq_true_2. destruct l; [done|cbn; lia]. Qed.

(** A project list updated at the position of the active project. *)
Lemma insert_lookup_active (ps : list Project) (i : nat) (p q : Project) :
  ps !! i = Some p → <[i := q]> ps !! i = Some q.
Proof. intros Hp. apply list_lookup_insert_eq. by eapply lookup_lt_Some. Qed.

(** C4.  When the round that is open has no selection (its entry is empty
    or absent), [nextRound] answers with the failure "No images selected"
    whatever [force] is, and the state it leaves is the one in which the
    active project was resolved: no project is modified (so [currentRound],
    [roundSelections] and [lastFileName] are as before) and nothing is
    saved. *)
Theorem nextRound_EmptySelection_no_mutation
    (w w0 : World) (i : nat) (p : Project) (force : value) :
  active w i p w0 →
  currentSelections p = [] →
  nextRound force w = (Ok (Json json_EmptySelection), w0)
  ∧ projects (appData w0) = projects (appData w)
  ∧ projects (appData w0) !! i = Some p.
Proof.
  intros Hact Hsel. split; [by eapply nextRound_empty|].
  split; [by eapply active_projects|apply Hact].
Qed.

Lemma nextRound_EmptySelection_no_mutation_witness :
  active startup 0 defaultProject startup
  ∧ currentSelections defaultProject = []
  ∧ nextRound (VBool true) startup = (Ok (Json json_EmptySelection), startup)
  ∧ nextRound (VBool false) startup = (Ok (Json json_EmptySelection), startup).
Proof.
  assert (active startup 0 defaultProject startup) as Hact
    by (split; reflexivity).
  split; [exact Hact|]. split; [reflexivity|]. split.
  - apply (nextRound_EmptySelection_no_mutation startup startup 0
             defaultProject (VBool true) Hact eq_refl).
  - apply (nextRound_EmptySelection_no_mutation startup startup 0
             defaultProject (VBool false) Hact eq_refl).
Defined.

(** C3 does not hold at every round: the round that [nextRound] enters is
    the double [N + 1], which at round 2^53 is 2^53 itself.  There a forced
    [nextRound] succeeds and leaves [currentRound] at 2^53, and the entry
    recorded under the key of 2^53 + 1 is as it was. *)
Lemma nextRound_force_stays_at_two53 :
  ¬ (∀ (w w0 : World) (i : nat) (p : Project) (N : Z) (stale : list string),
       active w i p w0 →
       currentRound p = Int N →
       currentSelections p ≠ [] →
       roundSelection (Int (N + 1)) p = Some stale →
       stale ≠ [] →
       nextRound (VBool false) w = (Ok (Json json_RequiresConfirmation), w0)
       ∧ projects (appData w0) = projects (appData w)
       ∧ projects (appData w0) !! i = Some p
       ∧ ∃ w1 p',
           nextRound (VBool true) w0 = (Ok (Json json_success), w1)
           ∧ projects (appData w1) !! i = Some p'
           ∧ roundSelection (Int (N + 1)) p' = Some []
           ∧ currentRound p' = Int (N + 1)).
Proof.
  intros Hspec.
  destruct (Hspec saturated saturated 0%nat saturated_project (2 ^ 53)
              ["x.png"])
    as (_ & _ & _ & w1 & p' & Hrun & Hp' & _ & Hround).
  - split; reflexivity.
  - reflexivity.
  - discriminate.
  - reflexivity.
  - discriminate.
  - vm_compute in Hrun. injection Hrun as <-.
    vm_compute in Hp'. injection Hp' as <-.
    vm_compute in Hround. discriminate.
Qed.

(** C3, amended.  Let the active project be at an integer round N with
    -2^53 ≤ N < 2^53, with selections in round N and a non-empty entry
    [stale] recorded for round N+1.  [nextRound] with [force = false]
    answers [requireConfirmation] and leaves every project as it was; in
    the state it leaves, [nextRound] with [force = true] succeeds, after
    which the entry for round N+1 is the empty array and [currentRound] is
    N+1. *)
Theorem nextRound_confirmation_then_force
    (w w0 : World) (i : nat) (p : Project) (N : Z) (stale : list string) :
  active w i p w0 →
  currentRound p = Int N →
  - 2 ^ 53 ≤ N < 2 ^ 53 →
  currentSelections p ≠ [] →
  roundSelection (Int (N + 1)) p = Some stale →
  stale ≠ [] →
  nextRound (VBool false) w = (Ok (Json json_RequiresConfirmation), w0)
  ∧ projects (appData w0) = projects (appData w)
  ∧ projects (appData w0) !! i = Some p
  ∧ ∃ w1 p',
      nextRound (VBool true) w0 = (Ok (Json json_success), w1)
      ∧ projects (appData w1) !! i = Some p'
      ∧ roundSelection (Int (N + 1)) p' = Some []
      ∧ currentRound p' = Int (N + 1).
Proof.
  intros Hact HN Hrange Hsel Hstale Hne.
  pose proof (succ_exact N Hrange) as Hsucc. rewrite <- HN in Hsucc.
  split.
  { eapply nextRound_confirm; [done..|].
    by rewrite Hsucc, Hstale, has_selections_Some. }
  split; [by eapply active_projects|]. split; [apply Hact|].
  assert (active w0 i p w0) as Hact0.
  { split; [by eapply active_stable|apply Hact]. }
  destruct (nextRound_advance w0 w0 i p (VBool true) Hact0 Hsel)
    as (w1 & Hrun & Hps & _).
  { by rewrite andb_false_r. }
  exists w1, (advanced (VBool true) p). split; [done|].
  split.
  { rewrite Hps. eapply insert_lookup_active, Hact. }
  unfold advanced, roundSelection. cbn [truthy orb]. rewrite Hsucc.
  split; [|done]. cbn. apply lookup_insert_eq.
Qed.

Lemma nextRound_confirmation_then_force_witness :
  nextRound (VBool false) revisited
    = (Ok (Json json_RequiresConfirmation), revisited)
  ∧ ∃ w1 p',
      nextRound (VBool true) revisited = (Ok (Json json_success), w1)
      ∧ projects (appData w1) !! 0%nat = Some p'
      ∧ roundSelection (Int 3) p' = Some []
      ∧ currentRound p' = Int 3.
Proof.
  destruct (nextRound_confirmation_then_force revisited revisited 0
              revisited_project 2 ["x.png"])
    as (Hfirst & _ & _ & Hsecond).
  - split; reflexivity.
  - reflexivity.
  - lia.
  - discriminate.
  - reflexivity.
  - discriminate.
  - split; [exact Hfirst|exact Hsecond].
Defined.

(** C7 does not hold at every round: the entry that [nextRound] empties is
    that of the double [N + 1], and C7 counts round N itself among the
    rounds that keep their entry.  Take the default project to round 2^53
    and select [a.png] there: a forced [nextRound] succeeds and leaves the
    empty array as the entry of round 2^53.  (The same happens at round
    [NaN], which [switchRound] reaches with a [round] such as [abc].) *)
Lemma nextRound_empties_the_open_round :
  ¬ (∀ (w w0 w1 : World) (i : nat) (p : Project) (force : value),
       active w i p w0 →
       nextRound force w = (Ok (Json json_success), w1) →
       ∃ p',
         projects (appData w1) !! i = Some p'
         ∧ roundSelection (currentRound p) p'
           = roundSelection (currentRound p) p).
Proof.
  intros Hspec.
  set (w := serve (PostToggleSelection (Some "a.png"))
              (serve (PostSwitchRound (VString "9007199254740992")) startup)).
  destruct (Hspec w w (serve (PostNextRound (VBool true)) w) 0%nat
              (toggled "a.png" (switched (VString "9007199254740992")
                                  defaultProject))
              (VBool true))
    as (p' & Hp' & Hkept).
  - split; reflexivity.
  - reflexivity.
  - vm_compute in Hp'. injection Hp' as <-.
    vm_compute in Hkept. discriminate.
Qed.

(** C7, amended.  A successful [nextRound] on the active project at an
    integer round N with -2^53 ≤ N < 2^53 changes, among the entries of its
    [roundSelections], at most the one for round N+1: every other property
    key, and so every round number other than N+1, keeps its entry, round N
    itself and the rounds beyond N+1 included.  The other projects are not
    touched. *)
Theorem nextRound_touches_only_next_round
    (w w0 w1 : World) (i : nat) (p : Project) (N : Z) (force : value) :
  active w i p w0 →
  currentRound p = Int N →
  - 2 ^ 53 ≤ N < 2 ^ 53 →
  nextRound force w = (Ok (Json json_success), w1) →
  ∃ p',
    projects (appData w1) !! i = Some p'
    ∧ (∀ key : string, key ≠ ToString (Int (N + 1)) →
         roundSelections p' !! key = roundSelections p !! key)
    ∧ (∀ k : number, k ≠ Int (N + 1) →
         roundSelection k p' = roundSelection k p)
    ∧ roundSelection (Int N) p' = roundSelection (Int N) p
    ∧ (∀ j : nat, j ≠ i →
         projects (appData w1) !! j = projects (appData w) !! j).
Proof.
  intros Hact HN Hrange Hrun.
  pose proof (succ_exact N Hrange) as Hsucc. rewrite <- HN in Hsucc.
  destruct (decide (currentSelections p = [])) as [Hsel|Hsel].
  { rewrite (nextRound_empty _ _ _ _ force Hact Hsel) in Hrun. discriminate. }
  destruct (has_selections (roundSelection (succ (currentRound p)) p)
            && negb (truthy force)) eqn:Hstop.
  { rewrite (nextRound_confirm _ _ _ _ force Hact Hsel Hstop) in Hrun.
    discriminate. }
  destruct (nextRound_advance _ _ _ _ force Hact Hsel Hstop)
    as (w1' & Hrun' & Hps & _).
  rewrite Hrun' in Hrun. simplify_eq.
  assert (∀ key : string, key ≠ ToString (Int (N + 1)) →
            roundSelections (advanced force p) !! key
            = roundSelections p !! key) as Hkeys.
  { intros key Hkey. unfold advanced. rewrite Hsucc. cbn.
    destruct (truthy force || has_selections _); cbn; [|done].
    by rewrite lookup_insert_ne. }
  assert (∀ k : number, k ≠ Int (N + 1) →
            roundSelection k (advanced force p) = roundSelection k p)
    as Hrounds.
  { intros k Hk. apply Hkeys. intros Heq. apply Hk. by apply (inj ToString). }
  exists (advanced force p). split.
  { rewrite Hps. eapply insert_lookup_active, Hact. }
  split; [done|]. split; [done|]. split.
  - apply Hrounds. intros [= Heq]. lia.
  - intros j Hj. rewrite Hps, list_lookup_insert_ne by done.
    by rewrite (active_projects _ _ _ _ Hact).
Qed.

Lemma nextRound_touches_only_next_round_witness :
  ∃ p',
    projects (appData (serve (PostNextRound (VBool true)) revisited)) !! 0%nat
      = Some p'
    ∧ roundSelection (Int 2) p' = Some ["c.png"]
    ∧ roundSelection (Int 4) p' = Some ["x.png"].
Proof.
  destruct (nextRound_touches_only_next_round revisited revisited
              (serve (PostNextRound (VBool true)) revisited) 0
              revisited_project 2 (VBool true))
    as (p' & Hp' & _ & Hrounds & Hopen & _).
  - split; reflexivity.
  - reflexivity.
  - lia.
  - reflexivity.
  - exists p'. split; [exact Hp'|]. split.
    + rewrite Hopen. reflexivity.
    + rewrite (Hrounds (Int 4)); [reflexivity|discriminate].
Defined.

(** C10.  When the round that is open has selections, [nextRound] with a
    true [force] succeeds, and in the project it leaves the entry of the
    round just entered exists and is the empty array, whether or not there
    was an entry for that round before. *)
Theorem nextRound_force_creates_entry
    (w w0 : World) (i : nat) (p : Project) (force : value) :
  active w i p w0 →
  currentSelections p ≠ [] →
  truthy force = true →
  ∃ w1 p',
    nextRound force w = (Ok (Json json_success), w1)
    ∧ projects (appData w1) !! i = Some p'
    ∧ currentRound p' = succ (currentRound p)
    ∧ roundSelection (currentRound p') p' = Some [].
Proof.
  intros Hact Hsel Hforce.
  destruct (nextRound_advance w w0 i p force Hact Hsel)
    as (w1 & Hrun & Hps & _).
  { by rewrite Hforce, andb_false_r. }
  exists w1, (advanced force p). split; [done|]. split.
  { rewrite Hps. eapply insert_lookup_active, Hact. }
  split; [done|].
  unfold advanced, roundSelection. rewrite Hforce. cbn.
  apply lookup_insert_eq.
Qed.

Lemma nextRound_force_creates_entry_witness :
  roundSelection (Int 2) (set_roundSelection (Int 1) ["a.png"] defaultProject)
    = None
  ∧ ∃ w1 p',
      nextRound (VBool true) (serve (PostToggleSelection (Some "a.png")) startup)
        = (Ok (Json json_success), w1)
      ∧ projects (appData w1) !! 0%nat = Some p'
      ∧ currentRound p' = Int 2
      ∧ roundSelection (currentRound p') p' = Some [].
Proof.
  split; [reflexivity|].
  apply (nextRound_force_creates_entry
           (serve (PostToggleSelection (Some "a.png")) startup)
           (serve (PostToggleSelection (Some "a.png")) startup) 0
           (set_roundSelection (Int 1) ["a.png"] defaultProject) (VBool true)).
  - split; reflexivity.
  - discriminate.
  - reflexivity.
Defined.

(** ** The index page *)

Lemma resolveCandidates_set_lastFileName
    (readdir : string → option (list string)) (x : string) (p : Project) :
  resolveCandidates readdir (set_lastFileName x p)
  = resolveCandidates readdir p.
Proof. done. Qed.

Lemma roundSelection_set_lastFileName (n : number) (x : string) (p : Project) :
  roundSelection n (set_lastFileName x p) = roundSelection n p.
Proof. done. Qed.

Lemma index_run (readdir : string → option (list string))
    (file : option string) (w w0 : World) (i : nat) (p : Project) :
  active w i p w0 →
  ∃ w1 v,
    index readdir file w = (Ok (Render v), w1)
    ∧ projects (appData w1)
      = <[i := viewed readdir file p]> (projects (appData w0))
    ∧ activeProjectId (appData w1) = activeProjectId (appData w0)
    ∧ view_imageList v = resolveCandidates readdir p.
Proof.
  intros [Hrun Hp]. unfold index, viewed, autoselect.
  rewrite (bind_Ok _ _ _ _ _ Hrun).
  destruct (truthy_str file) eqn:Hfile; run Hp.
  all: cbn [lastFileName set_lastFileName currentRound roundSelection roundSelections].
  all: rewrite ?roundSelection_set_lastFileName.
  all: destruct (roundSelection (currentRound p) p) as [l|] eqn:Hcur; run Hp.
  all: cbn [lastFileName set_lastFileName set_roundSelection].
  all: rewrite ?resolveCandidates_set_lastFileName.
  all: destruct ((_ || negb (includes _ (resolveCandidates _ _))) && _)
         eqn:Hauto; [run Hp|destruct (bool_decide (length _ = 0%nat))].
  all: run Hp.
  all: eexists _, _; split; [reflexivity|]; cbn; split; [|done].
  all: rewrite ?list_alter_alter_eq.
  all: try (erewrite list_alter_insert_at by exact Hp; f_equal; done).
  all: symmetry; apply list_insert_id; rewrite Hp; f_equal; by destruct p.
Qed.

(** C5 does not hold at every round N > 1: the key that the handler reads
    is that of the double [N - 1].  At round 2^53 + 2 that double is 2^53,
    so the candidates are the selections of round 2^53, while the project
    has no entry for round 2^53 + 1. *)
Lemma resolveCandidates_reads_rounded_round :
  ¬ (∀ (readdir : string → option (list string)) (p : Project) (N : Z),
       currentRound p = Int N →
       1 < N →
       resolveCandidates readdir p
       = default [] (roundSelections p !! ToString (Int (N - 1)))).
Proof.
  intros Hspec.
  pose proof (Hspec (λ _, None) beyond_project (2 ^ 53 + 2) eq_refl) as Heq.
  vm_compute in Heq. by specialize (Heq eq_refl).
Qed.

(** C5, amended.  For a project at round N with 1 < N ≤ 2^53 the candidate
    list is the array stored for round N-1, in its order, or the empty array
    when there is no such entry.  It is the same whatever the directory
    reader returns and whatever the project's [filePath] is, and it is the
    [imageList] that [GET /] renders when the project is the active one. *)
Theorem resolveCandidates_from_previous_round
    (readdir : string → option (list string)) (p : Project) (N : Z) :
  currentRound p = Int N →
  1 < N ≤ 2 ^ 53 →
  resolveCandidates readdir p
    = default [] (roundSelections p !! ToString (Int (N - 1)))
  ∧ (∀ (readdir' : string → option (list string)) (x dir : option string),
       resolveCandidates readdir' (set_settings x dir p)
       = resolveCandidates readdir p)
  ∧ (∀ (w w0 : World) (i : nat) (file : option string),
       active w i p w0 →
       ∃ w1 v,
         index readdir file w = (Ok (Render v), w1)
         ∧ view_imageList v
           = default [] (roundSelections p !! ToString (Int (N - 1)))).
Proof.
  intros HN Hgt.
  assert (∀ rd q, currentRound q = Int N →
            resolveCandidates rd q
            = default [] (roundSelections q !! ToString (Int (N - 1))))
    as Hprev.
  { intros rd q Hq. unfold resolveCandidates. rewrite Hq.
    rewrite decide_False by (intros [= ->]; lia).
    by rewrite pred_exact by lia. }
  split; [by apply Hprev|]. split.
  - intros readdir' x dir. by rewrite !Hprev.
  - intros w w0 i file Hact.
    destruct (index_run readdir file w w0 i p Hact) as (w1 & v & Hrun & _ & _ & Hv).
    exists w1, v. split; [done|]. rewrite Hv. by apply Hprev.
Qed.

Lemma resolveCandidates_from_previous_round_witness :
  resolveCandidates (λ _, Some ["z.png"]) revisited_project
  = ["c.png"; "d.png"].
Proof.
  destruct (resolveCandidates_from_previous_round (λ _, Some ["z.png"])
              revisited_project 2) as (Hprev & _).
  - reflexivity.
  - lia.
  - rewrite Hprev. reflexivity.
Defined.

(** C1 does not hold without a condition on the candidates: a requested
    file that is not among the candidates of a non-empty candidate list does
    not stay in [lastFileName].  The project below is at round 2 with candidates
    [c.png] and [d.png]; after [GET /?file=zzz.png] its [lastFileName] is
    [c.png]. *)
Lemma index_requested_file_replaced :
  ¬ (∀ (readdir : string → option (list string)) (w w0 : World) (i : nat)
       (p : Project) (f : string),
       active w i p w0 → f ≠ "" →
       ∃ p', projects (appData (serve (GetIndex readdir (Some f)) w)) !! i
               = Some p'
             ∧ lastFileName p' = f).
Proof.
  intros Hspec.
  destruct (Hspec (λ _, None) revisited revisited 0%nat revisited_project
              "zzz.png") as (p' & Hp' & Hlast).
  - split; reflexivity.
  - discriminate.
  - vm_compute in Hp'. by simplify_eq.
Qed.

Lemma autoselect_requested (f : string) (imageList : list string) :
  f ≠ "" →
  autoselect f imageList
  = if bool_decide (f ∈ imageList) then f else default f (head imageList).
Proof.
  intros Hf. unfold autoselect, includes.
  rewrite (proj2 (String.eqb_neq f "")) by done. cbn.
  case_bool_decide as Hin; cbn.
  - done.
  - destruct imageList as [|c rest]; cbn; [done|].
    rewrite bool_decide_eq_true_2 by lia. done.
Qed.

(** C1, amended.  After [GET /?file=f] with a non-empty [f], the
    [lastFileName] of the active project is [f] when [f] is one of the
    current candidates, and also when there is no candidate at all; when the
    candidate list is non-empty and does not contain [f], it is the first
    candidate. *)
Theorem index_requested_file
    (readdir : string → option (list string)) (w w0 : World) (i : nat)
    (p : Project) (f : string) :
  active w i p w0 →
  f ≠ "" →
  ∃ w1 v p',
    index readdir (Some f) w = (Ok (Render v), w1)
    ∧ projects (appData w1) !! i = Some p'
    ∧ (f ∈ resolveCandidates readdir p ∨ resolveCandidates readdir p = [] →
       lastFileName p' = f)
    ∧ (∀ c rest, resolveCandidates readdir p = c :: rest → f ∉ c :: rest →
       lastFileName p' = c).
Proof.
  intros Hact Hf.
  destruct (index_run readdir (Some f) w w0 i p Hact)
    as (w1 & v & Hrun & Hps & _ & _).
  exists w1, v, (viewed readdir (Some f) p). split; [done|]. split.
  { rewrite Hps. eapply insert_lookup_active, Hact. }
  unfold viewed. cbn [truthy_str].
  rewrite (proj2 (String.eqb_neq f "")) by done. cbn [negb default lastFileName set_lastFileName].
  rewrite autoselect_requested by done. split.
  - intros [Hin|Hnil].
    + by rewrite bool_decide_eq_true_2.
    + rewrite Hnil. by case_bool_decide.
  - intros c rest Hcands Hnotin. rewrite Hcands.
    by rewrite bool_decide_eq_false_2.
Qed.

Lemma index_requested_file_witness :
  ∃ w1 v p',
    index (λ _, None) (Some "d.png") revisited = (Ok (Render v), w1)
    ∧ projects (appData w1) !! 0%nat = Some p'
    ∧ lastFileName p' = "d.png".
Proof.
  destruct (index_requested_file (λ _, None) revisited revisited 0
              revisited_project "d.png")
    as (w1 & v & p' & Hrun & Hp' & Hkept & _).
  - split; reflexivity.
  - discriminate.
  - exists w1, v, p'. split; [exact Hrun|]. split; [exact Hp'|].
    apply Hkept. left. vm_compute. apply list_elem_of_In. cbn. tauto.
Defined.

(** ** Toggling a selection *)

Section toggle_list.
Context (f : string).
Implicit Types l : list string.

Lemma includes_true l : includes f l = true ↔ f ∈ l.
Proof. unfold includes. apply bool_decide_eq_true. Qed.

Lemma includes_false l : includes f l = false ↔ f ∉ l.
Proof. unfold includes. apply bool_decide_eq_false. Qed.

Lemma elem_of_without l x : x ∈ without f l ↔ x ≠ f ∧ x ∈ l.
Proof. unfold without. by rewrite list_elem_of_filter. Qed.

Lemma without_absent l : f ∉ l → without f l = l.
Proof.
  intros Hf. induction l as [|x l IH]; [done|].
  apply not_elem_of_cons in Hf as [Hx Hl]. unfold without in *.
  rewrite filter_cons_True by done. by rewrite IH.
Qed.

Lemma without_app l1 l2 : without f (l1 ++ l2) = without f l1 ++ without f l2.
Proof. apply filter_app. Qed.

Lemma without_idemp l : without f (without f l) = without f l.
Proof. apply without_absent. rewrite elem_of_without. by intros [? _]. Qed.

Lemma toggle_present l : f ∈ l → toggle f l = without f l.
Proof. intros Hf. unfold toggle. by rewrite (proj2 (includes_true l)). Qed.

Lemma toggle_absent l : f ∉ l → toggle f l = l ++ [f].
Proof. intros Hf. unfold toggle. by rewrite (proj2 (includes_false l)). Qed.

(** Toggling flips the membership of [f]. *)
Lemma includes_toggle l : includes f (toggle f l) = negb (includes f l).
Proof.
  destruct (decide (f ∈ l)) as [Hf|Hf].
  - rewrite toggle_present, (proj2 (includes_true l)) by done.
    apply includes_false. rewrite elem_of_without. by intros [? _].
  - rewrite toggle_absent, (proj2 (includes_false l)) by done.
    apply includes_true. set_solver.
Qed.

Lemma toggle_toggle_present l :
  f ∈ l → toggle f (toggle f l) = without f l ++ [f].
Proof.
  intros Hf. rewrite (toggle_present l) by done.
  apply toggle_absent. rewrite elem_of_without. by intros [? _].
Qed.

Lemma toggle_toggle_absent l : f ∉ l → toggle f (toggle f l) = l.
Proof.
  intros Hf. rewrite (toggle_absent l) by done.
  rewrite toggle_present by set_solver.
  rewrite without_app, without_absent by done.
  unfold without. rewrite filter_cons_False by naive_solver.
  by rewrite filter_nil, app_nil_r.
Qed.

Lemma elem_of_toggle_toggle l x : x ∈ toggle f (toggle f l) ↔ x ∈ l.
Proof.
  destruct (decide (f ∈ l)) as [Hf|Hf].
  - rewrite toggle_toggle_present by done.
    rewrite elem_of_app, elem_of_without, list_elem_of_singleton.
    split; [by intros [[_ ?]| ->]|].
    intros Hx. destruct (decide (x = f)); [by right|by left].
  - by rewrite toggle_toggle_absent.
Qed.

Lemma without_toggle_toggle l :
  without f (toggle f (toggle f l)) = without f l.
Proof.
  destruct (decide (f ∈ l)) as [Hf|Hf].
  - rewrite toggle_toggle_present by done.
    rewrite without_app, without_idemp. unfold without at 2.
    rewrite filter_cons_False by naive_solver.
    by rewrite filter_nil, app_nil_r.
  - by rewrite toggle_toggle_absent.
Qed.

Lemma without_Permutation l : NoDup l → f ∈ l → l ≡ₚ f :: without f l.
Proof.
  induction 1 as [|x l Hx Hl IH]; intros Hf; [by apply elem_of_nil in Hf|].
  unfold without in *. destruct (decide (x = f)) as [->|Hne].
  - rewrite filter_cons_False by naive_solver.
    fold (without f l). by rewrite without_absent.
  - rewrite filter_cons_True by done.
    apply elem_of_cons in Hf as [?|Hf]; [done|].
    rewrite (IH Hf) at 1. apply Permutation_swap.
Qed.

Lemma toggle_toggle_Permutation l : NoDup l → toggle f (toggle f l) ≡ₚ l.
Proof.
  intros Hl. destruct (decide (f ∈ l)) as [Hf|Hf].
  - rewrite toggle_toggle_present by done.
    rewrite (without_Permutation l) at 2 by done.
    by rewrite Permutation_app_comm.
  - by rewrite toggle_toggle_absent.
Qed.
End toggle_list.

(** The active project is found by its [id]: once resolved, it stays
    resolved when the object at its position is replaced by one with the
    same [id]. *)
Lemma active_resolved (w w0 : World) (i : nat) (p : Project) :
  active w i p w0 →
  list_find (λ q, id q = activeProjectId (appData w0)) (projects (appData w0))
  = Some (i, p).
Proof.
  intros [Hrun Hp].
  destruct (getActiveProject_cases w)
    as [(j & q & Hfind & Hr)|[(first & rest & Hps & _ & Hr)|[_ Hr]]];
    rewrite Hr in Hrun; simplify_eq.
  - rewrite Hfind. apply list_find_Some in Hfind as (Hq & _). congruence.
  - cbn in *. rewrite Hps in *. cbn in *. simplify_eq.
    by rewrite decide_True.
Qed.

Lemma active_after_update (w w0 w1 : World) (i : nat) (p q : Project) :
  active w i p w0 →
  id q = id p →
  activeProjectId (appData w1) = activeProjectId (appData w0) →
  projects (appData w1) = <[i := q]> (projects (appData w0)) →
  active w1 i q w1.
Proof.
  intros Hact Hid Ha Hps.
  pose proof (active_resolved _ _ _ _ Hact) as Hfind.
  apply list_find_Some in Hfind as (Hp & Hidp & Hbefore).
  assert (projects (appData w1) !! i = Some q) as Hq.
  { rewrite Hps. by eapply insert_lookup_active. }
  split; [|done].
  eapply (getActiveProject_found _ i q).
  apply list_find_Some. split; [done|]. split; [congruence|].
  intros j y Hy Hlt. rewrite Hps, list_lookup_insert_ne in Hy by lia.
  rewrite Ha. by eapply Hbefore.
Qed.

Lemma roundSelection_or_empty_set (n : number) (l : list string) (p : Project) :
  roundSelection_or_empty n (set_roundSelection n l p) = l.
Proof.
  unfold roundSelection_or_empty, roundSelection. cbn.
  by rewrite lookup_insert_eq.
Qed.

Lemma currentRound_set_roundSelection (n : number) (l : list string) (p : Project) :
  currentRound (set_roundSelection n l p) = currentRound p.
Proof. done. Qed.

Lemma set_roundSelection_twice (n : number) (l l' : list string) (p : Project) :
  set_roundSelection n l (set_roundSelection n l' p) = set_roundSelection n l p.
Proof. unfold set_roundSelection. cbn. by rewrite insert_insert_eq. Qed.

Lemma toggleSelection_run (w w0 : World) (i : nat) (p : Project) (f : string) :
  active w i p w0 →
  f ≠ "" →
  ∃ w1,
    toggleSelection (Some f) w
    = (Ok (Json (json_selected (negb (includes f (currentSelections p))))), w1)
    ∧ projects (appData w1) = <[i := toggled f p]> (projects (appData w0))
    ∧ activeProjectId (appData w1) = activeProjectId (appData w0)
    ∧ written w1 = appData w1 :: written w0.
Proof.
  intros [Hrun Hp] Hf. unfold toggleSelection, toggled.
  rewrite (bind_Ok _ _ _ _ _ Hrun).
  rewrite (proj2 (String.eqb_neq f "")) by done. run Hp.
  rewrite <- (includes_toggle f (currentSelections p)).
  assert (∃ q, (q = p ∨ q = set_roundSelection (currentRound p) [] p)
               ∧ currentSelections q = currentSelections p
               ∧ (if roundSelection (currentRound p) p is Some _ then skip
                  else assign i (set_roundSelection (currentRound p) [])) w0
                 = (Ok (), assigned i (λ _, q) w0))
    as (q & Hq & Hsel & Hlazy).
  { destruct (roundSelection (currentRound p) p) as [l|] eqn:Hcur.
    - exists p. split; [by left|]. split; [done|].
      unfold skip, assigned. cbn. destruct w0 as [[a ps] ws]. cbn in *.
      do 3 f_equal. symmetry. erewrite list_alter_insert_at by done.
      by apply list_insert_id.
    - exists (set_roundSelection (currentRound p) [] p).
      split; [by right|]. split.
      { unfold currentSelections. rewrite currentRound_set_roundSelection.
        rewrite roundSelection_or_empty_set.
        unfold roundSelection_or_empty. by rewrite Hcur. }
      rewrite assign_run. unfold assigned. do 3 f_equal.
      by erewrite !list_alter_insert_at by done. }
  rewrite (bind_Ok _ _ _ _ _ Hlazy).
  assert (projects (appData (assigned i (λ _, q) w0)) !! i = Some q) as Hpq
    by exact (assigned_lookup i (λ _, q) w0 p Hp).
  assert (currentRound q = currentRound p) as Hround by by destruct Hq as [->| ->].
  run Hpq. rewrite !Hround. fold (currentSelections p) in *.
  unfold currentSelections in Hsel. rewrite Hround in Hsel. rewrite !Hsel.
  fold (currentSelections p).
  assert (∀ l, set_roundSelection (currentRound p) l q
               = set_roundSelection (currentRound p) l p) as Hset.
  { intros l. destruct Hq as [->| ->]; [done|apply set_roundSelection_twice]. }
  unfold toggle.
  destruct (includes f (currentSelections p)) eqn:Hin; run Hpq.
  all: rewrite !Hset, !currentRound_set_roundSelection, !roundSelection_or_empty_set.
  all: eexists; split; [reflexivity|]; cbn; split; [|done].
  all: rewrite !list_alter_alter_eq.
  all: erewrite list_alter_insert_at by exact Hp; cbn; by rewrite Hset.
Qed.

Lemma currentSelections_toggled (f : string) (p : Project) :
  currentSelections (toggled f p) = toggle f (currentSelections p).
Proof.
  unfold toggled, currentSelections at 1.
  by rewrite currentRound_set_roundSelection, roundSelection_or_empty_set.
Qed.

Lemma toggled_toggled (f : string) (p : Project) :
  toggled f (toggled f p)
  = set_roundSelection (currentRound p)
      (toggle f (toggle f (currentSelections p))) p.
Proof.
  unfold toggled at 1. rewrite currentSelections_toggled.
  unfold toggled. by rewrite currentRound_set_roundSelection,
    set_roundSelection_twice.
Qed.

(** C6.  Two [toggleSelection] requests in a row for the same non-empty
    file name [f] both succeed; the first reports the flipped membership of
    [f], the second the original one.  Afterwards [f] is selected exactly if
    it was before, the selections of the open round have the same elements
    as before, and the other file names are in the same order as before; the
    round and the entries of the other rounds are as before.  If [f] was not
    selected the list is the same list, and if the list had no duplicate it
    is a permutation of what it was ([f], when selected, moves to the
    end). *)
Theorem toggleSelection_twice
    (w w0 : World) (i : nat) (p : Project) (f : string) :
  active w i p w0 →
  f ≠ "" →
  ∃ w1 w2 p2,
    toggleSelection (Some f) w
    = (Ok (Json (json_selected (negb (includes f (currentSelections p))))), w1)
    ∧ toggleSelection (Some f) w1
      = (Ok (Json (json_selected (includes f (currentSelections p)))), w2)
    ∧ projects (appData w2) !! i = Some p2
    ∧ includes f (currentSelections p2) = includes f (currentSelections p)
    ∧ (∀ x, x ∈ currentSelections p2 ↔ x ∈ currentSelections p)
    ∧ without f (currentSelections p2) = without f (currentSelections p)
    ∧ (f ∉ currentSelections p → currentSelections p2 = currentSelections p)
    ∧ (NoDup (currentSelections p) →
       currentSelections p2 ≡ₚ currentSelections p)
    ∧ currentRound p2 = currentRound p
    ∧ (∀ k, k ≠ currentRound p → roundSelection k p2 = roundSelection k p).
Proof.
  intros Hact Hf.
  destruct (toggleSelection_run w w0 i p f Hact Hf)
    as (w1 & Hrun1 & Hps1 & Ha1 & _).
  assert (active w1 i (toggled f p) w1) as Hact1
    by by eapply active_after_update.
  destruct (toggleSelection_run w1 w1 i (toggled f p) f Hact1 Hf)
    as (w2 & Hrun2 & Hps2 & _).
  rewrite currentSelections_toggled, includes_toggle, negb_involutive in Hrun2.
  exists w1, w2, (toggled f (toggled f p)).
  split; [done|]. split; [done|]. split.
  { rewrite Hps2. eapply insert_lookup_active, Hact1. }
  rewrite toggled_toggled.
  assert (currentSelections
            (set_roundSelection (currentRound p)
               (toggle f (toggle f (currentSelections p))) p)
          = toggle f (toggle f (currentSelections p))) as ->.
  { unfold currentSelections at 1.
    by rewrite currentRound_set_roundSelection, roundSelection_or_empty_set. }
  split; [by rewrite !includes_toggle, negb_involutive|].
  split; [apply elem_of_toggle_toggle|].
  split; [apply without_toggle_toggle|].
  split; [apply toggle_toggle_absent|].
  split; [apply toggle_toggle_Permutation|].
  split; [done|].
  intros k Hk. unfold roundSelection. cbn.
  apply lookup_insert_ne. intros Heq. apply Hk. by apply (inj ToString).
Qed.

Lemma toggleSelection_twice_witness :
  ∃ p2,
    projects
      (appData (serve (PostToggleSelection (Some "c.png"))
                  (serve (PostToggleSelection (Some "c.png")) revisited)))
      !! 0%nat = Some p2
    ∧ includes "c.png" (currentSelections p2) = true
    ∧ without "c.png" (currentSelections p2) = [].
Proof.
  destruct (toggleSelection_twice revisited revisited 0 revisited_project
              "c.png")
    as (w1 & w2 & p2 & Hrun1 & Hrun2 & Hp2 & Hin & _ & Hothers & _).
  - split; reflexivity.
  - discriminate.
  - exists p2. unfold serve, handle. rewrite Hrun1. cbn [snd].
    rewrite Hrun2. cbn [snd]. split; [exact Hp2|].
    split; [rewrite Hin|rewrite Hothers]; reflexivity.
Defined.

(** ** The active project *)

(** C9.  In a document whose [activeProjectId] is the [id] of none of its
    projects and that has a project, [getActiveProject] returns the first
    project, and afterwards [activeProjectId] is that project's [id] (the
    repaired document is saved; the projects are as before).  In a document
    in which some project carries [activeProjectId], it returns the first
    such project, which is that very project when ids are unique, and
    leaves the state as it is. *)
Theorem getActiveProject_self_healing (w : World) :
  (∀ first rest,
     projects (appData w) = first :: rest →
     (∀ p, p ∈ projects (appData w) → id p ≠ activeProjectId (appData w)) →
     ∃ w',
       getActiveProject w = (Ok (Some 0%nat), w')
       ∧ projects (appData w') = projects (appData w)
       ∧ projects (appData w') !! 0%nat = Some first
       ∧ activeProjectId (appData w') = id first
       ∧ written w' = appData w' :: written w)
  ∧ (∀ q,
       q ∈ projects (appData w) →
       id q = activeProjectId (appData w) →
       ∃ i p,
         getActiveProject w = (Ok (Some i), w)
         ∧ projects (appData w) !! i = Some p
         ∧ id p = activeProjectId (appData w)
         ∧ (∀ j y, projects (appData w) !! j = Some y → (j < i)%nat →
              id y ≠ activeProjectId (appData w))
         ∧ (NoDup (id <$> projects (appData w)) → p = q)).
Proof.
  split.
  - intros first rest Hps Hnone.
    eexists. split.
    { eapply getActiveProject_fallback; [|done].
      apply list_find_None, Forall_forall. intros p Hp. by apply Hnone. }
    cbn. rewrite Hps. done.
  - intros q Hq Hid.
    destruct (list_find_elem_of (λ p, id p = activeProjectId (appData w))
                (projects (appData w)) q Hq Hid) as [[i p] Hfind].
    exists i, p. split; [by eapply getActiveProject_found|].
    apply list_find_Some in Hfind as (Hp & Hidp & Hbefore).
    split; [done|]. split; [done|]. split; [done|].
    intros Hnodup. apply list_elem_of_lookup in Hq as [j Hj].
    assert (i = j) as ->; [|congruence].
    eapply NoDup_lookup; [done| |].
    + by rewrite list_lookup_fmap, Hp.
    + rewrite list_lookup_fmap, Hj. cbn. congruence.
Qed.

Lemma getActiveProject_self_healing_witness :
  (∃ w',
     getActiveProject dangling = (Ok (Some 0%nat), w')
     ∧ projects (appData w') !! 0%nat = Some revisited_project
     ∧ activeProjectId (appData w') = "default")
  ∧ (∃ i p,
       getActiveProject startup = (Ok (Some i), startup)
       ∧ projects (appData startup) !! i = Some p
       ∧ p = defaultProject).
Proof.
  split.
  - destruct (proj1 (getActiveProject_self_healing dangling)
                revisited_project [defaultProject] eq_refl)
      as (w' & Hrun & _ & Hfirst & Hactive & _).
    + intros p Hp. apply list_elem_of_In in Hp.
      destruct Hp as [<-|[<-|[]]]; discriminate.
    + exists w'. split; [exact Hrun|]. split; [exact Hfirst|exact Hactive].
  - destruct (proj2 (getActiveProject_self_healing startup)
                defaultProject) as (i & p & Hrun & Hp & _ & _ & Hsame).
    + apply list_elem_of_In. left. reflexivity.
    + reflexivity.
    + exists i, p. split; [exact Hrun|]. split; [exact Hp|].
      apply Hsame. apply NoDup_singleton.
Defined.

(** ** What each request does to the project list *)

Lemma getActiveProject_resolves (w : World) :
  (∃ i p w0, active w i p w0)
  ∨ (projects (appData w) = [] ∧ getActiveProject w = (Ok None, w)).
Proof.
  destruct (getActiveProject_cases w)
    as [(i & p & Hfind & Hr)|[(first & rest & Hps & _ & Hr)|[Hnil Hr]]].
  - left. exists i, p, w. split; [done|].
    by apply list_find_Some in Hfind as (Hp & _).
  - left. eexists 0%nat, first, _. split; [exact Hr|]. cbn. by rewrite Hps.
  - by right.
Qed.

Lemma updateSettings_run (w w0 : World) (i : nat) (p : Project)
    (x f : option string) :
  active w i p w0 →
  ∃ w1,
    updateSettings x f w = (Ok (Redirect "/"), w1)
    ∧ projects (appData w1)
      = <[i := set_settings x f p]> (projects (appData w0)).
Proof.
  intros [Hrun Hp]. unfold updateSettings.
  rewrite (bind_Ok _ _ _ _ _ Hrun). run Hp.
  eexists. split; [reflexivity|]. cbn.
  by erewrite list_alter_insert_at by exact Hp.
Qed.

Lemma switchRound_run (w w0 : World) (i : nat) (p : Project) (round : value) :
  active w i p w0 →
  ∃ w1,
    switchRound round w = (Ok (Redirect "/"), w1)
    ∧ projects (appData w1)
      = (if truthy round then <[i := switched round p]> (projects (appData w0))
         else projects (appData w0)).
Proof.
  intros [Hrun Hp]. unfold switchRound, switched.
  rewrite (bind_Ok _ _ _ _ _ Hrun).
  destruct (truthy round); run Hp; (eexists; split; [reflexivity|]); [|done].
  cbn. rewrite list_alter_alter_eq.
  by erewrite list_alter_insert_at by exact Hp.
Qed.

Lemma nextRound_cases (w w0 : World) (i : nat) (p : Project) (force : value) :
  active w i p w0 →
  ∃ r w1,
    nextRound force w = (Ok r, w1)
    ∧ (projects (appData w1) = projects (appData w0)
       ∨ projects (appData w1)
         = <[i := advanced force p]> (projects (appData w0))).
Proof.
  intros Hact.
  destruct (decide (currentSelections p = [])) as [Hsel|Hsel].
  { eexists _, _. split; [by eapply nextRound_empty|by left]. }
  destruct (has_selections (roundSelection (succ (currentRound p)) p)
            && negb (truthy force)) eqn:Hstop.
  { eexists _, _. split; [by eapply nextRound_confirm|by left]. }
  destruct (nextRound_advance _ _ _ _ force Hact Hsel Hstop)
    as (w1 & Hrun & Hps & _).
  eexists _, _. split; [done|by right].
Qed.

Lemma toggleSelection_cases (w w0 : World) (i : nat) (p : Project)
    (fileName : option string) :
  active w i p w0 →
  ∃ r w1,
    toggleSelection fileName w = (Ok r, w1)
    ∧ (projects (appData w1) = projects (appData w0)
       ∨ ∃ f, projects (appData w1)
              = <[i := toggled f p]> (projects (appData w0))).
Proof.
  intros Hact. destruct fileName as [f|].
  - destruct (decide (f = "")) as [->|Hf].
    + unfold toggleSelection. rewrite (bind_Ok _ _ _ _ _ (proj1 Hact)).
      eexists _, _. split; [reflexivity|by left].
    + destruct (toggleSelection_run w w0 i p f Hact Hf) as (w1 & Hrun & Hps & _).
      eexists _, _. split; [done|]. right. by exists f.
  - unfold toggleSelection. rewrite (bind_Ok _ _ _ _ _ (proj1 Hact)).
    eexists _, _. split; [reflexivity|by left].
Qed.

Lemma viewed_same (readdir : string → option (list string))
    (file : option string) (p : Project) :
  id (viewed readdir file p) = id p
  ∧ currentRound (viewed readdir file p) = currentRound p.
Proof. unfold viewed. by destruct (roundSelection (currentRound p) p). Qed.

Lemma advanced_same (force : value) (p : Project) :
  id (advanced force p) = id p
  ∧ currentRound (advanced force p) = succ (currentRound p).
Proof. unfold advanced. by destruct (_ || _). Qed.

Lemma change_same (w : World) (r : request) (ps : list Project) :
  ps = projects (appData w) → change w r ps.
Proof. intros ->. apply change_none. Qed.

Lemma insert_same_id_change (w w0 : World) (r : request) (i : nat)
    (p q : Project) :
  active w i p w0 →
  id q = id p →
  round_change r p q →
  change w r (<[i := q]> (projects (appData w0))).
Proof.
  intros Hact Hid Hround. rewrite (active_projects _ _ _ _ Hact).
  eapply change_active; [by eapply active_lookup|done..].
Qed.

(** Every request changes the project list in one of the four ways of
    [change]. *)
Lemma serve_change (w : World) (r : request) :
  change w r (projects (appData (serve r w))).
Proof.
  unfold serve.
  destruct r as [readdir file|imageName present|x f|uuid n f|projectId|round
                |projectId|fileName|failure|force]; cbn [handle].
  - (* GET / *)
    destruct (getActiveProject_resolves w) as [(i & p & w0 & Hact)|[Hnil Hnone]].
    + destruct (index_run readdir file w w0 i p Hact)
        as (w1 & v & Hrun & Hps & _).
      rewrite Hrun. cbn [snd]. rewrite Hps.
      eapply insert_same_id_change; [done|apply viewed_same|].
      left. apply viewed_same.
    + unfold index. rewrite (bind_Ok _ _ _ _ _ Hnone). by apply change_same.
  - (* GET /image *)
    destruct (getActiveProject_resolves w) as [(i & p & w0 & Hact)|[Hnil Hnone]].
    + unfold image. rewrite (bind_Ok _ _ _ _ _ (proj1 Hact)).
      destruct Hact as [Hrun Hp]. run Hp.
      apply getActiveProject_projects in Hrun as [Hsame _].
      destruct (filePath p); [destruct (_ && _)|]; cbn; rewrite Hsame;
        by apply change_same.
    + unfold image. rewrite (bind_Ok _ _ _ _ _ Hnone). by apply change_same.
  - (* POST /updateSettings *)
    destruct (getActiveProject_resolves w) as [(i & p & w0 & Hact)|[Hnil Hnone]].
    + destruct (updateSettings_run w w0 i p x f Hact) as (w1 & Hrun & Hps).
      rewrite Hrun. cbn [snd]. rewrite Hps.
      eapply insert_same_id_change; [done|done|by left].
    + unfold updateSettings. rewrite (bind_Ok _ _ _ _ _ Hnone). by apply change_same.
  - (* POST /createProject *)
    cbn. by eapply change_create.
  - (* POST /switchProject *)
    unfold switchProject. run I.
    destruct (list_find _ _); run I; by apply change_same.
  - (* POST /switchRound *)
    destruct (getActiveProject_resolves w) as [(i & p & w0 & Hact)|[Hnil Hnone]].
    + destruct (switchRound_run w w0 i p round Hact) as (w1 & Hrun & Hps).
      rewrite Hrun. cbn [snd]. rewrite Hps.
      destruct (truthy round) eqn:Htruthy.
      * eapply insert_same_id_change; [done|done|].
        right; right. by exists round.
      * rewrite (active_projects _ _ _ _ Hact). by apply change_same.
    + unfold switchRound. rewrite (bind_Ok _ _ _ _ _ Hnone). by apply change_same.
  - (* POST /deleteProject *)
    unfold deleteProject. run I. case_bool_decide as Hlen; [by apply change_same|].
    run I. cbn [appData activeProjectId projects].
    assert (change w (PostDeleteProject projectId)
              (filter (λ p, ¬ id_is projectId p) (projects (appData w))))
      as Hchange by (eapply change_delete; [done|lia]).
    case_bool_decide as Hactive; [|by run I].
    unfold deref. run I. cbn [appData projects].
    by destruct (filter _ _ !! 0%nat); run I.
  - (* POST /toggleSelection *)
    destruct (getActiveProject_resolves w) as [(i & p & w0 & Hact)|[Hnil Hnone]].
    + destruct (toggleSelection_cases w w0 i p fileName Hact)
        as (r & w1 & Hrun & [Hps | [f Hps]]); rewrite Hrun; cbn [snd];
        rewrite Hps.
      * rewrite (active_projects _ _ _ _ Hact). by apply change_same.
      * eapply insert_same_id_change; [done|done|by left].
    + unfold toggleSelection. rewrite (bind_Ok _ _ _ _ _ Hnone). by apply change_same.
  - (* POST /finishRound *)
    destruct (getActiveProject_resolves w) as [(i & p & w0 & Hact)|[Hnil Hnone]].
    + unfold finishRound. rewrite (bind_Ok _ _ _ _ _ (proj1 Hact)).
      destruct failure; cbn; rewrite (active_projects _ _ _ _ Hact);
        by apply change_same.
    + unfold finishRound. rewrite (bind_Ok _ _ _ _ _ Hnone). by apply change_same.
  - (* POST /nextRound *)
    destruct (getActiveProject_resolves w) as [(i & p & w0 & Hact)|[Hnil Hnone]].
    + destruct (nextRound_cases w w0 i p force Hact)
        as (r & w1 & Hrun & [Hps | Hps]); rewrite Hrun; cbn [snd];
        rewrite Hps.
      * rewrite (active_projects _ _ _ _ Hact). by apply change_same.
      * eapply insert_same_id_change; [done|apply advanced_same|].
        right; left. exists force. split; [done|apply advanced_same].
    + unfold nextRound. rewrite (bind_Ok _ _ _ _ _ Hnone). by apply change_same.
Qed.

(** ** Invariants of a run *)

Lemma round_ok_succ (p q : Project) :
  round_ok p → currentRound q = succ (currentRound p) → round_ok q.
Proof.
  intros (z & Hz & Hle) Hq. exists (to_double (z + 1)). rewrite Hq, Hz.
  split; [done|]. apply to_double_positive. lia.
Qed.

Lemma change_round_ok (w : World) (r : request) (ps : list Project) :
  names_a_round w r →
  change w r ps →
  Forall round_ok (projects (appData w)) →
  Forall round_ok ps.
Proof.
  intros Hadm Hchange Hall.
  destruct Hchange as [|i p q Hp Hid Hround|uuid n f q -> Hid Hone|projectId -> Hlen].
  - done.
  - apply Forall_insert; [done|].
    pose proof (Forall_lookup_1 _ _ _ _ Hall Hp) as Hok.
    destruct Hround as [Hsame|[(force & -> & Hnext)|(round & -> & Htruthy & Hparse)]].
    + destruct Hok as (z & Hz & Hle). exists z. by rewrite Hsame.
    + by eapply round_ok_succ.
    + destruct (Hadm Htruthy) as (z & Hz & Hle). exists z. by rewrite Hparse.
  - apply Forall_app. split; [done|]. apply Forall_singleton.
    exists 1. split; [done|lia].
  - apply Forall_forall. intros x [_ Hx]%list_elem_of_filter.
    by eapply Forall_forall in Hall.
Qed.

Lemma startup_round_ok : Forall round_ok (projects (appData startup)).
Proof. apply Forall_singleton. exists 1. split; [done|lia]. Qed.

(** C2 does not hold for every request value: [switchRound] stores
    whatever [parseInt] makes of the request.  After [POST /switchRound] with
    [round = "0"] the default project is at round 0. *)
Lemma switchRound_zero_breaks_round_bound :
  ¬ (∀ w, reachable any_request w →
          Forall round_ok (projects (appData w))).
Proof.
  intros Hspec.
  pose proof (Hspec (serve (PostSwitchRound (VString "0")) startup)
                (reachable_serve _ _ _ (reachable_startup _) I)) as Hall.
  apply Forall_inv in Hall. destruct Hall as (z & Hz & Hle).
  vm_compute in Hz. injection Hz as <-. lia.
Qed.

(** C2, amended.  In every state that the process reaches from its first
    start by serving requests whose [switchRound] requests either carry no
    [round] (and are ignored) or carry one that [parseInt] reads as an
    integer that is at least 1, the [currentRound] of every project, the
    default one and the created ones, is an integer that is at least 1. *)
Theorem currentRound_at_least_one (w : World) :
  reachable names_a_round w →
  Forall round_ok (projects (appData w)).
Proof.
  induction 1 as [|w r Hreach IH Hadm].
  - apply startup_round_ok.
  - eapply change_round_ok; [exact Hadm|apply serve_change|exact IH].
Qed.

Lemma currentRound_at_least_one_witness :
  Forall round_ok
    (projects
       (appData
          (serve (PostNextRound VUndefined)
             (serve (PostToggleSelection (Some "a.png"))
                (serve (PostSwitchRound (VString " 7"))
                   (serve (PostCreateProject "p2" None None) startup)))))).
Proof.
  apply currentRound_at_least_one.
  repeat (apply reachable_serve; [|try exact I]).
  - apply reachable_startup.
  - intros _. exists 7. split; [reflexivity|lia].
Defined.

Example rounds_after_a_run :
  currentRound
    <$> projects
          (appData
             (serve (PostNextRound VUndefined)
                (serve (PostToggleSelection (Some "a.png"))
                   (serve (PostSwitchRound (VString " 7"))
                      (serve (PostCreateProject "p2" None None) startup)))))
  = [Int 1; Int 8].
Proof. reflexivity. Qed.

(** Removing the projects of one [id] from a list of at least two projects
    with distinct ids leaves a project. *)
Lemma filter_other_ids_nonempty (projectId : option string) (ps : list Project) :
  NoDup (id <$> ps) →
  (1 < length ps)%nat →
  filter (λ p, ¬ id_is projectId p) ps ≠ [].
Proof.
  intros Hnodup Hlen.
  destruct ps as [|a [|b rest]]; cbn in Hlen; [lia..|].
  assert (id a ≠ id b) as Hab.
  { cbn in Hnodup. apply NoDup_cons in Hnodup as [Ha _].
    intros Heq. apply Ha. rewrite Heq. apply list_elem_of_here. }
  assert (∀ x, x ∈ a :: b :: rest → ¬ id_is projectId x →
               filter (λ p, ¬ id_is projectId p) (a :: b :: rest) ≠ [])
    as Hkeep.
  { intros x Hx Hkept Hnil.
    assert (x ∈ filter (λ p, ¬ id_is projectId p) (a :: b :: rest)) as Hin
      by by apply list_elem_of_filter.
    rewrite Hnil in Hin. by apply elem_of_nil in Hin. }
  destruct (decide (id_is projectId a)) as [Ha|Ha].
  - apply (Hkeep b); [set_solver|]. unfold id_is in *. congruence.
  - apply (Hkeep a); [set_solver|done].
Qed.

Lemma change_well_formed (w : World) (r : request) (ps : list Project) :
  fresh_uuid w r →
  change w r ps →
  well_formed (appData w) →
  ps ≠ [] ∧ NoDup (id <$> ps).
Proof.
  intros Hfresh Hchange [Hne Hnodup].
  destruct Hchange as [|i p q Hp Hid Hround|uuid n f q -> Hid Hone|projectId -> Hlen].
  - done.
  - split.
    + intros Hnil. apply (f_equal length) in Hnil.
      rewrite length_insert in Hnil. by destruct (projects (appData w)).
    + rewrite list_fmap_insert, Hid, list_insert_id; [done|].
      by rewrite list_lookup_fmap, Hp.
  - split; [by destruct (projects (appData w))|].
    rewrite fmap_app. apply NoDup_app. split; [done|]. split.
    + intros x Hx [->|[]%elem_of_nil]%elem_of_cons. cbn in Hfresh. congruence.
    + apply NoDup_singleton.
  - split; [by apply filter_other_ids_nonempty|].
    eapply sublist_NoDup; [exact Hnodup|].
    apply fmap_sublist, sublist_filter.
Qed.

Lemma startup_well_formed : well_formed (appData startup).
Proof. split; [done|]. apply NoDup_singleton. Qed.

Lemma reachable_well_formed (w : World) :
  reachable fresh_uuid w → well_formed (appData w).
Proof.
  induction 1 as [|w r Hreach IH Hadm].
  - apply startup_well_formed.
  - eapply change_well_formed; [exact Hadm|apply serve_change|exact IH].
Qed.

Lemma deleteProject_last (w : World) (projectId : option string) :
  (length (projects (appData w)) ≤ 1)%nat →
  deleteProject projectId w = (Ok (Redirect "/"), w).
Proof.
  intros Hlen. unfold deleteProject. run I.
  by rewrite bool_decide_eq_true_2.
Qed.

(** C8 does not hold in one respect: the rejected deletion returns no
    failure.  [POST /deleteProject] for the only project of the
    default document leaves the state as it is and answers with the
    redirect to [/], which is also the answer to a deletion that took
    place. *)
Lemma deleteProject_rejection_not_reported :
  ¬ (∀ (w : World) (projectId : option string),
       length (projects (appData w)) = 1%nat →
       ∃ r, deleteProject projectId w = (Ok r, w) ∧ reports_failure r).
Proof.
  intros Hspec.
  destruct (Hspec startup (Some "default") eq_refl) as (r & Hrun & Hfail).
  vm_compute in Hrun. injection Hrun as <-. exact Hfail.
Qed.

(** C8, amended.  In every state that the process reaches from its first
    start, the project identifiers that [createProject] draws being new,
    the project list is not empty.  [POST /deleteProject] on a document
    with exactly one project changes nothing in the state and saves
    nothing; its answer is the redirect to [/], the same as after a
    deletion, so no failure is returned.  Every other request, and a
    deletion among several projects, leaves a non-empty list. *)
Theorem projects_never_empty (w : World) :
  reachable fresh_uuid w →
  projects (appData w) ≠ []
  ∧ (∀ projectId,
       length (projects (appData w)) = 1%nat →
       deleteProject projectId w = (Ok (Redirect "/"), w))
  ∧ (∀ r, fresh_uuid w r → projects (appData (serve r w)) ≠ []).
Proof.
  intros Hreach. split; [by apply reachable_well_formed|]. split.
  - intros projectId Hlen. apply deleteProject_last. lia.
  - intros r Hfresh.
    apply (reachable_well_formed (serve r w)). by apply reachable_serve.
Qed.

Lemma projects_never_empty_witness :
  projects
    (appData
       (serve (PostDeleteProject (Some "default"))
          (serve (PostCreateProject "p2" (Some "second") None) startup)))
  ≠ []
  ∧ deleteProject (Some "p2")
      (serve (PostDeleteProject (Some "default"))
         (serve (PostCreateProject "p2" (Some "second") None) startup))
    = (Ok (Redirect "/"),
       serve (PostDeleteProject (Some "default"))
         (serve (PostCreateProject "p2" (Some "second") None) startup)).
Proof.
  destruct (projects_never_empty
              (serve (PostDeleteProject (Some "default"))
                 (serve (PostCreateProject "p2" (Some "second") None) startup)))
    as (Hne & Hguard & _).
  - apply reachable_serve; [apply reachable_serve|exact I].
    + apply reachable_startup.
    + cbn. intros Hin. apply list_elem_of_In in Hin.
      destruct Hin as [Heq|[]]. discriminate.
  - split; [exact Hne|]. apply Hguard. reflexivity.
Defined.

(** * Further properties *)

(** ** The migration at start-up *)

(** X1.  The migration can be run again at no cost: migrating a migrated
    document gives the same document, whatever the stored document was. *)
Theorem migrate_idempotent (d : Stored.data) :
  migrate (migrate d) = migrate d.
Proof.
  unfold migrate. cbn. f_equal. rewrite <- list_fmap_compose.
  apply list_fmap_ext. intros _ p _. done.
Qed.

(** X2.  What the migration does to one stored project.  It always leaves
    a [roundSelections] object and removes [roundImages] and
    [currentRoundSelections]; the round and the file last viewed are kept.
    An existing [roundSelections] is kept as it is, and a legacy list that
    comes with it is dropped.  Without [roundSelections], a non-empty
    legacy list becomes the entry of the current round, the only entry; an
    empty or absent one gives an object without entries. *)
Theorem migrate_project_spec (p : Stored.project) :
  current_format (migrate_project p)
  ∧ currentRound (project_of (migrate_project p)) = Stored.currentRound p
  ∧ lastFileName (project_of (migrate_project p)) = Stored.lastFileName p
  ∧ (∀ rs, Stored.roundSelections p = Some rs →
       roundSelections (project_of (migrate_project p)) = rs)
  ∧ (∀ l, Stored.roundSelections p = None →
       Stored.currentRoundSelections p = Some l → l ≠ [] →
       currentSelections (project_of (migrate_project p)) = l
       ∧ ∀ key, key ≠ ToString (Stored.currentRound p) →
           roundSelections (project_of (migrate_project p)) !! key = None)
  ∧ (Stored.roundSelections p = None →
     default [] (Stored.currentRoundSelections p) = [] →
     roundSelections (project_of (migrate_project p)) = ∅).
Proof.
  split; [by split; [eexists|]|]. split; [done|]. split; [done|].
  split; [|split].
  - intros rs Hrs. cbn. by rewrite Hrs.
  - intros l Hnone Hl Hne. unfold currentSelections, roundSelection_or_empty,
      roundSelection. cbn. rewrite Hnone, Hl.
    rewrite bool_decide_eq_true_2 by (destruct l; [done|cbn; lia]).
    split; [by rewrite lookup_insert_eq|].
    intros key Hkey. by rewrite lookup_insert_ne, lookup_empty.
  - intros Hnone Hl. cbn. rewrite Hnone.
    destruct (Stored.currentRoundSelections p) as [l|]; [|done].
    cbn in Hl. by rewrite Hl.
Qed.

(** X3.  Loading.  Without a readable [projects.json] the process starts
    from the default document, saved once.  With a document in the current
    format it starts from that very document, and the first thing it does
    is to save it again. *)
Theorem boot_spec :
  boot None = startup
  ∧ ∀ d, Forall current_format (Stored.projects d) →
      appData (boot (Some d)) = appData_of d
      ∧ written (boot (Some d)) = [appData_of d].
Proof.
  split; [done|]. intros d Hall.
  assert (appData_of (migrate d) = appData_of d) as Heq.
  { unfold appData_of, migrate. cbn. f_equal.
    rewrite <- list_fmap_compose. apply Forall_fmap_ext_1.
    eapply Forall_impl; [exact Hall|].
    intros p ([rs Hrs] & _ & _). unfold project_of. cbn. by rewrite Hrs. }
  unfold boot. cbn. by rewrite Heq.
Qed.

Lemma migrate_project_spec_witness :
  currentSelections (project_of (migrate_project legacy_project)) = ["a.png"]
  ∧ roundSelections (project_of (migrate_project legacy_project)) !! "1" = None.
Proof.
  destruct (migrate_project_spec legacy_project)
    as (_ & _ & _ & _ & Hlegacy & _).
  destruct (Hlegacy ["a.png"]) as [Hcur Hothers]; [reflexivity..|discriminate|].
  split; [exact Hcur|]. apply Hothers. discriminate.
Defined.

Lemma boot_spec_witness :
  appData (boot (Some (migrate (Stored.mkData "old" [legacy_project]))))
  = appData_of (migrate (Stored.mkData "old" [legacy_project])).
Proof.
  apply (proj2 boot_spec). apply Forall_singleton.
  split; [eexists; reflexivity|]. split; reflexivity.
Defined.

(** ** The directory scan *)

Lemma extname_cons (c : ascii) (r : string) :
  extname (String c r)
  = if Ascii.eqb c "."
    then if String.eqb r "." then "" else default "" (last_dot_suffix r)
    else default "" (last_dot_suffix (String c r)).
Proof. by destruct c as [[] [] [] [] [] [] [] []]. Qed.

Lemma string_app_nil (s : string) : "" +:+ s = s.
Proof. done. Qed.

Lemma string_app_cons (c : ascii) (s t : string) :
  String c s +:+ t = String c (s +:+ t).
Proof. done. Qed.

Lemma last_dot_suffix_None (s : string) :
  has_dot s = false → last_dot_suffix s = None.
Proof.
  induction s as [|c r IH]; [done|]. cbn.
  intros [Hc Hr]%orb_false_elim. by rewrite IH, Hc.
Qed.

(** The suffix found is the last dot with what follows it. *)
Lemma last_dot_suffix_Some (s e : string) :
  last_dot_suffix s = Some e →
  ∃ stem e', s = stem +:+ e ∧ e = String "." e' ∧ has_dot e' = false.
Proof.
  revert e. induction s as [|c r IH]; intros e; [done|]. cbn.
  destruct (last_dot_suffix r) as [e0|] eqn:Hr.
  - intros [= <-]. destruct (IH e0 eq_refl) as (stem & e' & -> & -> & Hfree).
    by exists (String c stem), e'.
  - destruct (Ascii.eqb_spec c ".") as [->|Hc]; [|done].
    intros [= <-]. exists "", r. split; [done|]. split; [done|].
    destruct (has_dot r) eqn:Hdot; [|done].
    clear IH. exfalso. induction r as [|c r IH]; [done|].
    cbn in Hr, Hdot. destruct (last_dot_suffix r); [done|].
    destruct (Ascii.eqb c "."); [done|]. cbn in Hdot. by apply IH.
Qed.

Lemma last_dot_suffix_app (stem e : string) :
  has_dot e = false →
  last_dot_suffix (stem +:+ String "." e) = Some (String "." e).
Proof.
  intros Hfree. induction stem as [|c stem IH].
  - rewrite string_app_nil. cbn. by rewrite last_dot_suffix_None.
  - rewrite string_app_cons. cbn. by rewrite IH.
Qed.

Lemma lower_char_dot (c : ascii) : lower_char c = "."%char ↔ c = "."%char.
Proof. destruct c as [[] [] [] [] [] [] [] []]; vm_compute; split; congruence. Qed.

Lemma toLowerCase_has_dot (s : string) : has_dot (toLowerCase s) = has_dot s.
Proof.
  induction s as [|c r IH]; [done|]. cbn. rewrite IH. f_equal.
  destruct (Ascii.eqb_spec (lower_char c) ".") as [Hl|Hl];
    destruct (Ascii.eqb_spec c ".") as [Hc|Hc]; try done.
  - destruct Hc. by apply lower_char_dot.
  - destruct Hl. by apply lower_char_dot.
Qed.

Lemma empty_not_image_extension : "" ∉ imageExtensions.
Proof.
  intros Hin%list_elem_of_In. cbn in Hin.
  destruct Hin as [H|[H|[H|[H|[H|[H|[]]]]]]]; discriminate.
Qed.

(** An image extension, in any case, is a dot followed by letters. *)
Lemma image_extension_shape (ext : string) :
  toLowerCase ext ∈ imageExtensions →
  ∃ e, ext = String "." e ∧ e ≠ "" ∧ has_dot e = false.
Proof.
  intros Hin. destruct ext as [|c e].
  { by apply empty_not_image_extension in Hin. }
  assert (lower_char c = "."%char ∧ e ≠ "" ∧ has_dot (toLowerCase e) = false)
    as (Hc & He & Hfree).
  { cbn in Hin. apply list_elem_of_In in Hin. cbn in Hin.
    destruct Hin as [H|[H|[H|[H|[H|[H|[]]]]]]];
      injection H as Hc He; rewrite <- Hc, <- He;
      (split; [done|]); (split; [by destruct e|done]). }
  exists e. apply lower_char_dot in Hc as ->.
  by rewrite toLowerCase_has_dot in Hfree.
Qed.

Lemma extname_of_extension (stem ext : string) :
  stem ≠ "" →
  toLowerCase ext ∈ imageExtensions →
  extname (stem +:+ ext) = ext.
Proof.
  intros Hstem Hext.
  destruct (image_extension_shape ext Hext) as (e & -> & He & Hfree).
  destruct stem as [|c stem]; [done|]. rewrite string_app_cons.
  rewrite extname_cons.
  destruct (Ascii.eqb_spec c ".") as [->|Hc].
  - rewrite (last_dot_suffix_app stem e Hfree).
    destruct (String.eqb_spec (stem +:+ String "." e) ".") as [Heq|_]; [|done].
    destruct stem as [|c' stem].
    + rewrite string_app_nil in Heq. by destruct e.
    + rewrite string_app_cons in Heq. injection Heq as _ Heq.
      destruct stem; [by rewrite string_app_nil in Heq|].
      by rewrite string_app_cons in Heq.
  - rewrite <- string_app_cons. by rewrite last_dot_suffix_app.
Qed.

Lemma extname_stem (file : string) :
  extname file ≠ "" →
  ∃ stem, file = stem +:+ extname file ∧ stem ≠ "".
Proof.
  destruct file as [|c r]; [done|]. rewrite extname_cons.
  destruct (Ascii.eqb_spec c ".") as [->|Hc].
  - destruct (String.eqb r "."); [done|].
    destruct (last_dot_suffix r) as [e|] eqn:Hr; [|done]. intros _.
    destruct (last_dot_suffix_Some r e Hr) as (stem & e' & -> & _).
    exists (String "." stem). by rewrite string_app_cons.
  - destruct (last_dot_suffix (String c r)) as [e|] eqn:Hr; [|done]. intros _.
    destruct (last_dot_suffix_Some _ e Hr) as (stem & e' & Heq & -> & _).
    exists stem. split; [done|]. intros ->.
    rewrite string_app_nil in Heq. congruence.
Qed.

(** X4.  The directory scan lists exactly the entries whose name is a
    non-empty stem followed by one of the six image extensions, written in
    any case: [a.PNG] is listed, [.png] and [notes.txt] are not.  The
    entries come in the order of the directory listing.  A path that is
    [undefined], and a directory that is missing or cannot be read, give
    the empty list. *)
Theorem getImagesFromDir_spec (readdir : string → option (list string)) :
  getImagesFromDir readdir None = []
  ∧ (∀ dir, readdir dir = None → getImagesFromDir readdir (Some dir) = [])
  ∧ (∀ dir files, readdir dir = Some files →
       getImagesFromDir readdir (Some dir) `sublist_of` files
       ∧ ∀ x, x ∈ getImagesFromDir readdir (Some dir)
              ↔ x ∈ files
                ∧ ∃ stem ext, x = stem +:+ ext ∧ stem ≠ ""
                              ∧ toLowerCase ext ∈ imageExtensions).
Proof.
  split; [done|]. split.
  { intros dir Hdir. cbn. by rewrite Hdir. }
  intros dir files Hdir. cbn. rewrite Hdir.
  split; [apply sublist_filter|].
  intros x. rewrite list_elem_of_filter. split.
  - intros [Hext Hx]. split; [done|].
    destruct (extname_stem x) as (stem & Heq & Hstem).
    { intros Hnil. rewrite Hnil in Hext.
      by apply empty_not_image_extension in Hext. }
    by exists stem, (extname x).
  - intros (Hx & stem & ext & -> & Hstem & Hext). split; [|done].
    by rewrite extname_of_extension.
Qed.

Lemma getImagesFromDir_spec_witness :
  getImagesFromDir (λ _, Some ["b.JPG"; ".png"; "notes.txt"; "a.b.webp"])
    (Some "/pictures")
  `sublist_of` ["b.JPG"; ".png"; "notes.txt"; "a.b.webp"]
  ∧ "b.JPG" ∈ getImagesFromDir
                (λ _, Some ["b.JPG"; ".png"; "notes.txt"; "a.b.webp"])
                (Some "/pictures").
Proof.
  destruct (getImagesFromDir_spec
              (λ _, Some ["b.JPG"; ".png"; "notes.txt"; "a.b.webp"]))
    as (_ & _ & Hlist).
  destruct (Hlist "/pictures" _ eq_refl) as [Hsub Hin].
  split; [exact Hsub|]. apply Hin. split.
  - apply list_elem_of_In. cbn. tauto.
  - exists "b", ".JPG". split; [reflexivity|]. split; [discriminate|].
    apply list_elem_of_In. cbn. tauto.
Defined.

(** ** What the index page shows *)

Lemma currentRound_set_lastFileName (x : string) (p : Project) :
  currentRound (set_lastFileName x p) = currentRound p.
Proof. done. Qed.

Lemma roundSelection_or_empty_set_lastFileName (n : number) (x : string)
    (p : Project) :
  roundSelection_or_empty n (set_lastFileName x p)
  = roundSelection_or_empty n p.
Proof. done. Qed.

Lemma set_lastFileName_same (x : string) (p : Project) :
  x = lastFileName p → set_lastFileName x p = p.
Proof. intros ->. by destruct p. Qed.

Lemma index_view (readdir : string → option (list string))
    (file : option string) (w w0 : World) (i : nat) (p : Project) :
  active w i p w0 →
  ∃ w1,
    index readdir file w
    = (Ok (Render
             (mkView (Some (viewed readdir file p)) (projects (appData w1))
                (shown (requested file p) (resolveCandidates readdir p))
                (resolveCandidates readdir p) (currentSelections p))), w1)
    ∧ projects (appData w1)
      = <[i := viewed readdir file p]> (projects (appData w0))
    ∧ activeProjectId (appData w1) = activeProjectId (appData w0).
Proof.
  intros [Hrun Hp]. unfold index, viewed, autoselect, shown, requested.
  unfold currentSelections at 1.
  rewrite (bind_Ok _ _ _ _ _ Hrun).
  destruct (truthy_str file) eqn:Hfile; run Hp.
  all: cbn [lastFileName set_lastFileName currentRound roundSelection roundSelections].
  all: rewrite ?roundSelection_set_lastFileName.
  all: destruct (roundSelection (currentRound p) p) as [l|] eqn:Hcur; run Hp.
  all: cbn [lastFileName set_lastFileName set_roundSelection].
  all: rewrite ?resolveCandidates_set_lastFileName.
  all: destruct ((_ || negb (includes _ (resolveCandidates _ _))) && _)
         eqn:Hauto; [run Hp|destruct (bool_decide (length _ = 0%nat))].
  all: run Hp.
  all: repeat first
         [ rewrite currentRound_set_lastFileName
         | rewrite currentRound_set_roundSelection
         | rewrite roundSelection_or_empty_set_lastFileName
         | rewrite roundSelection_or_empty_set ].
  all: unfold roundSelection_or_empty; rewrite ?Hcur; cbn [default].
  all: repeat match goal with
         | |- context [set_lastFileName (lastFileName ?p0) ?q] =>
             rewrite (set_lastFileName_same (lastFileName p0) q eq_refl)
         end.
  all: eexists; split; [reflexivity|]; cbn; split; [|done].
  all: rewrite ?list_alter_alter_eq.
  all: try (erewrite list_alter_insert_at by exact Hp; f_equal; done).
  all: symmetry; apply list_insert_id; rewrite Hp; f_equal; by destruct p.
Qed.

Lemma head_elem_of (l : list string) : l ≠ [] → default "" (head l) ∈ l.
Proof. destruct l; [done|]. intros _. apply list_elem_of_here. Qed.

Lemma length_pos_nonempty (l : list string) :
  bool_decide (0 < length l)%nat = bool_decide (l ≠ []).
Proof. apply bool_decide_ext. destruct l; cbn; [split; [lia|done]|split; [done|lia]]. Qed.

Lemma autoselect_elem_of (stored : string) (imageList : list string) :
  imageList ≠ [] → autoselect stored imageList ∈ imageList.
Proof.
  intros Hne. unfold autoselect, includes.
  rewrite length_pos_nonempty, (bool_decide_eq_true_2 _ Hne), andb_true_r.
  destruct (String.eqb stored ""); cbn; [by apply head_elem_of|].
  case_bool_decide; cbn; [done|by apply head_elem_of].
Qed.

Lemma shown_autoselect (stored : string) (imageList : list string) :
  shown stored imageList
  = if bool_decide (imageList = []) then "" else autoselect stored imageList.
Proof.
  unfold shown, autoselect. rewrite length_zero_empty.
  destruct imageList as [|c rest]; [by rewrite andb_false_r|].
  rewrite (bool_decide_eq_false_2 (c :: rest = [])) by done.
  by destruct (_ && _).
Qed.

Lemma autoselect_keeps (stored : string) (imageList : list string) :
  stored ≠ "" → stored ∈ imageList → autoselect stored imageList = stored.
Proof.
  intros Hne Hin. unfold autoselect, includes.
  by rewrite (proj2 (String.eqb_neq stored "")), bool_decide_eq_true_2.
Qed.

Lemma autoselect_empty (stored : string) : autoselect stored [] = stored.
Proof. unfold autoselect. by rewrite andb_false_r. Qed.

(** X6.  The file that [GET /] shows.  When the round has candidates, the
    [fileName] rendered is one of them and it is what the project now
    stores in [lastFileName]: the requested or remembered file if that is a
    candidate, the first candidate otherwise.  When the round has no
    candidate the page shows no file, and [lastFileName] keeps the
    requested or remembered name as it is. *)
Theorem index_shows_a_candidate
    (readdir : string → option (list string)) (file : option string)
    (w w0 : World) (i : nat) (p : Project) :
  active w i p w0 →
  ∃ w1 v p',
    index readdir file w = (Ok (Render v), w1)
    ∧ projects (appData w1) !! i = Some p'
    ∧ view_project v = Some p'
    ∧ view_imageList v = resolveCandidates readdir p
    ∧ (resolveCandidates readdir p ≠ [] →
       view_fileName v ∈ resolveCandidates readdir p
       ∧ lastFileName p' = view_fileName v
       ∧ (requested file p ≠ "" →
          requested file p ∈ resolveCandidates readdir p →
          view_fileName v = requested file p)
       ∧ (requested file p ∉ resolveCandidates readdir p →
          head (resolveCandidates readdir p) = Some (view_fileName v)))
    ∧ (resolveCandidates readdir p = [] →
       view_fileName v = "" ∧ lastFileName p' = requested file p).
Proof.
  intros Hact.
  destruct (index_view readdir file w w0 i p Hact) as (w1 & Hrun & Hps & _).
  eexists w1, _, (viewed readdir file p). split; [exact Hrun|].
  split. { rewrite Hps. eapply insert_lookup_active, Hact. }
  split; [done|]. split; [done|].
  cbn [view_fileName]. rewrite shown_autoselect.
  assert (lastFileName (viewed readdir file p)
          = autoselect (requested file p) (resolveCandidates readdir p))
    as Hlast by done.
  rewrite Hlast. split.
  - intros Hne. rewrite bool_decide_eq_false_2 by done.
    split; [by apply autoselect_elem_of|]. split; [done|]. split.
    + apply autoselect_keeps.
    + intros Hnotin. unfold autoselect, includes.
      rewrite (bool_decide_eq_false_2 _ Hnotin), orb_true_r.
      rewrite length_pos_nonempty, bool_decide_eq_true_2 by done.
      by destruct (resolveCandidates readdir p).
  - intros ->. by rewrite autoselect_empty.
Qed.

Lemma index_shows_a_candidate_witness :
  ∃ w1 v,
    index (λ _, None) None
      (serve (PostSwitchRound (VString "3")) revisited)
    = (Ok (Render v), w1)
    ∧ view_fileName v = "c.png".
Proof.
  destruct (index_shows_a_candidate (λ _, None) None
              (serve (PostSwitchRound (VString "3")) revisited)
              (serve (PostSwitchRound (VString "3")) revisited) 0
              (switched (VString "3") revisited_project))
    as (w1 & v & p' & Hrun & _ & _ & _ & Hsome & _).
  - split; reflexivity.
  - exists w1, v. split; [exact Hrun|].
    destruct Hsome as (_ & _ & _ & Hfirst); [discriminate|].
    assert (requested None (switched (VString "3") revisited_project)
            ∉ resolveCandidates (λ _, None)
                (switched (VString "3") revisited_project)) as Hnotin.
    { intros Hin%list_elem_of_In. destruct Hin as [Heq|[]]. discriminate. }
    specialize (Hfirst Hnotin). injection Hfirst as <-. reflexivity.
Defined.

Lemma viewed_roundSelections (readdir : string → option (list string))
    (file : option string) (p : Project) :
  roundSelection (currentRound p) (viewed readdir file p)
    = Some (currentSelections p)
  ∧ ∀ key, key ≠ ToString (currentRound p) →
      roundSelections (viewed readdir file p) !! key
      = roundSelections p !! key.
Proof.
  unfold viewed, currentSelections, roundSelection_or_empty, roundSelection.
  destruct (roundSelections p !! ToString (currentRound p)) as [l|] eqn:Hcur;
    cbn.
  - done.
  - split; [by rewrite lookup_insert_eq|].
    intros key Hkey. by rewrite lookup_insert_ne.
Qed.

(** X7.  [GET /] reads the round engine without moving it.  The only thing
    it may change in [roundSelections] is to give the open round the empty
    array as its entry when it had none; an existing entry, the entries of
    all other rounds, [currentRound], the settings and the other projects
    are as before.  The selections it renders are those of the open
    round. *)
Theorem index_creates_only_the_open_round
    (readdir : string → option (list string)) (file : option string)
    (w w0 : World) (i : nat) (p : Project) :
  active w i p w0 →
  ∃ w1 v p',
    index readdir file w = (Ok (Render v), w1)
    ∧ projects (appData w1) !! i = Some p'
    ∧ view_currentRoundSelections v = currentSelections p
    ∧ roundSelection (currentRound p) p' = Some (currentSelections p)
    ∧ (∀ key, key ≠ ToString (currentRound p) →
         roundSelections p' !! key = roundSelections p !! key)
    ∧ (∀ k, k ≠ currentRound p → roundSelection k p' = roundSelection k p)
    ∧ currentRound p' = currentRound p
    ∧ (id p', name p', filePath p', xSelected p')
      = (id p, name p, filePath p, xSelected p)
    ∧ (∀ j, j ≠ i → projects (appData w1) !! j = projects (appData w) !! j).
Proof.
  intros Hact.
  destruct (index_view readdir file w w0 i p Hact) as (w1 & Hrun & Hps & _).
  destruct (viewed_roundSelections readdir file p) as [Hcur Hkeys].
  eexists w1, _, (viewed readdir file p). split; [exact Hrun|].
  split. { rewrite Hps. eapply insert_lookup_active, Hact. }
  split; [done|]. split; [done|]. split; [done|]. split.
  { intros k Hk. apply Hkeys. intros Heq. apply Hk. by apply (inj ToString). }
  split; [apply viewed_same|]. split.
  { unfold viewed. by destruct (roundSelection (currentRound p) p). }
  intros j Hj. rewrite Hps, list_lookup_insert_ne by done.
  by rewrite (active_projects _ _ _ _ Hact).
Qed.

Lemma index_creates_only_the_open_round_witness :
  ∃ w1 v p',
    index (λ _, None) (Some "a.png") startup = (Ok (Render v), w1)
    ∧ projects (appData w1) !! 0%nat = Some p'
    ∧ roundSelection (Int 1) p' = Some []
    ∧ currentRound p' = Int 1.
Proof.
  destruct (index_creates_only_the_open_round (λ _, None) (Some "a.png")
              startup startup 0 defaultProject)
    as (w1 & v & p' & Hrun & Hp' & _ & Hcur & _ & _ & Hround & _).
  - split; reflexivity.
  - exists w1, v, p'. split; [exact Hrun|]. split; [exact Hp'|].
    split; [exact Hcur|exact Hround].
Defined.

(** The candidates do not depend on what [GET /] leaves behind. *)
Lemma resolveCandidates_viewed (readdir : string → option (list string))
    (file : option string) (p : Project) :
  resolveCandidates readdir (viewed readdir file p)
  = resolveCandidates readdir p.
Proof.
  unfold viewed. rewrite resolveCandidates_set_lastFileName.
  destruct (roundSelection (currentRound p) p) as [l|] eqn:Hcur; [done|].
  unfold resolveCandidates. rewrite currentRound_set_roundSelection.
  case_decide as Hone; [done|].
  unfold roundSelection_or_empty, roundSelection. cbn.
  destruct (decide (pred (currentRound p) = currentRound p)) as [Heq|Hne].
  - rewrite Heq, lookup_insert_eq. unfold roundSelection in Hcur.
    by rewrite Hcur.
  - rewrite lookup_insert_ne; [done|]. intros Hkey. apply Hne.
    symmetry. by apply (inj ToString).
Qed.

Lemma autoselect_cons (stored c : string) (rest : list string) :
  autoselect stored (c :: rest)
  = if negb (String.eqb stored "") && bool_decide (stored ∈ c :: rest)
    then stored else c.
Proof.
  unfold autoselect, includes.
  rewrite (bool_decide_eq_true_2 (0 < length (c :: rest))%nat) by (cbn; lia).
  rewrite andb_true_r. cbn [head default].
  destruct (String.eqb stored ""); [done|]. by case_bool_decide.
Qed.

Lemma autoselect_idemp (stored : string) (imageList : list string) :
  autoselect (autoselect stored imageList) imageList
  = autoselect stored imageList.
Proof.
  destruct imageList as [|c rest]; [by rewrite !autoselect_empty|].
  rewrite (autoselect_cons stored).
  destruct (negb (String.eqb stored "") && bool_decide (stored ∈ c :: rest))
    eqn:Hkeep.
  - by rewrite autoselect_cons, Hkeep.
  - rewrite autoselect_cons. by case_match.
Qed.

Lemma viewed_idemp (readdir : string → option (list string))
    (file : option string) (p : Project) :
  viewed readdir None (viewed readdir file p) = viewed readdir file p.
Proof.
  destruct (viewed_roundSelections readdir file p) as [Hcur _].
  destruct (viewed_same readdir file p) as [_ Hround].
  unfold viewed at 1. rewrite Hround, Hcur, resolveCandidates_viewed.
  cbn [truthy_str].
  assert (lastFileName (viewed readdir file p)
          = autoselect (requested file p) (resolveCandidates readdir p))
    as Hlast by done.
  rewrite Hlast, autoselect_idemp.
  apply set_lastFileName_same. by rewrite Hlast.
Qed.

(** X8.  Reloading the page changes nothing: once [GET /] has been served,
    serving [GET /] again without a [file] (and with the same directory
    content) renders the same page and leaves the document as it is. *)
Theorem index_reload
    (readdir : string → option (list string)) (file : option string)
    (w w0 : World) (i : nat) (p : Project) :
  active w i p w0 →
  ∃ w1 w2 v,
    index readdir file w = (Ok (Render v), w1)
    ∧ index readdir None w1 = (Ok (Render v), w2)
    ∧ appData w2 = appData w1.
Proof.
  intros Hact.
  destruct (index_view readdir file w w0 i p Hact) as (w1 & Hrun & Hps & Ha).
  assert (active w1 i (viewed readdir file p) w1) as Hact1.
  { eapply active_after_update; [exact Hact|apply viewed_same|done..]. }
  destruct (index_view readdir None w1 w1 i _ Hact1) as (w2 & Hrun2 & Hps2 & Ha2).
  rewrite viewed_idemp in Hps2, Hrun2.
  assert (projects (appData w2) = projects (appData w1)) as Hsame.
  { rewrite Hps2. apply list_insert_id, Hact1. }
  exists w1, w2. eexists. split; [exact Hrun|]. split.
  - rewrite Hrun2, Hsame, resolveCandidates_viewed. do 4 f_equal.
    + rewrite !shown_autoselect. case_bool_decide; [done|].
      change (requested None (viewed readdir file p))
        with (autoselect (requested file p) (resolveCandidates readdir p)).
      apply autoselect_idemp.
    + unfold currentSelections. rewrite (proj2 (viewed_same readdir file p)).
      unfold roundSelection_or_empty.
      by rewrite (proj1 (viewed_roundSelections readdir file p)).
  - destruct (appData w2), (appData w1). cbn in *. congruence.
Qed.

Lemma index_reload_witness :
  ∃ w1 w2 v,
    index (λ _, None) (Some "zzz.png") revisited = (Ok (Render v), w1)
    ∧ index (λ _, None) None w1 = (Ok (Render v), w2)
    ∧ appData w2 = appData w1.
Proof.
  apply (index_reload (λ _, None) (Some "zzz.png") revisited revisited 0
           revisited_project).
  split; reflexivity.
Defined.

(** ** After a round has been advanced *)

Lemma has_selections_false (a : option (list string)) :
  has_selections a = false → default [] a = [].
Proof.
  destruct a as [[|x l]|]; cbn; [done| |done].
  intros Hpos. apply bool_decide_eq_false in Hpos. lia.
Qed.

Lemma currentSelections_advanced (force : value) (p : Project) :
  has_selections (roundSelection (succ (currentRound p)) p)
    && negb (truthy force) = false →
  currentSelections (advanced force p) = [].
Proof.
  intros Hgo. unfold currentSelections, advanced, roundSelection_or_empty,
    roundSelection. cbn.
  destruct (truthy force) eqn:Hforce; cbn.
  - by rewrite lookup_insert_eq.
  - rewrite andb_true_r in Hgo. unfold roundSelection in Hgo. rewrite Hgo.
    by apply has_selections_false.
Qed.

(** How a successful [nextRound] is recognised, and what it leaves. *)
Lemma nextRound_success_inv (w w0 w1 : World) (i : nat) (p : Project)
    (force : value) :
  active w i p w0 →
  nextRound force w = (Ok (Json json_success), w1) →
  currentSelections p ≠ []
  ∧ has_selections (roundSelection (succ (currentRound p)) p)
      && negb (truthy force) = false
  ∧ projects (appData w1) = <[i := advanced force p]> (projects (appData w0))
  ∧ activeProjectId (appData w1) = activeProjectId (appData w0)
  ∧ written w1 = appData w1 :: written w0.
Proof.
  intros Hact Hrun.
  destruct (decide (currentSelections p = [])) as [Hsel|Hsel].
  { rewrite (nextRound_empty _ _ _ _ force Hact Hsel) in Hrun. discriminate. }
  destruct (has_selections (roundSelection (succ (currentRound p)) p)
            && negb (truthy force)) eqn:Hstop.
  { rewrite (nextRound_confirm _ _ _ _ force Hact Hsel Hstop) in Hrun.
    discriminate. }
  destruct (nextRound_advance _ _ _ _ force Hact Hsel Hstop)
    as (w1' & Hrun' & Hps & Ha & Hw).
  rewrite Hrun' in Hrun. by simplify_eq.
Qed.

(** X9.  A round that has just been entered is empty.  After every
    successful [nextRound], forced or not, the project has no selection in
    its new round and no file remembered, so a second [nextRound] right
    after it, with any [force], answers "No images selected" and changes
    nothing. *)
Theorem nextRound_enters_an_empty_round
    (w w0 w1 : World) (i : nat) (p : Project) (force : value) :
  active w i p w0 →
  nextRound force w = (Ok (Json json_success), w1) →
  ∃ p',
    projects (appData w1) !! i = Some p'
    ∧ currentRound p' = succ (currentRound p)
    ∧ currentSelections p' = []
    ∧ lastFileName p' = ""
    ∧ ∀ force', nextRound force' w1 = (Ok (Json json_EmptySelection), w1).
Proof.
  intros Hact Hrun.
  destruct (nextRound_success_inv _ _ _ _ _ _ Hact Hrun)
    as (Hsel & Hgo & Hps & Ha & _).
  assert (active w1 i (advanced force p) w1) as Hact1.
  { eapply active_after_update; [exact Hact|apply advanced_same|done..]. }
  exists (advanced force p). split; [apply Hact1|].
  split; [apply advanced_same|].
  split; [by apply currentSelections_advanced|]. split; [done|].
  intros force'. eapply nextRound_empty; [exact Hact1|].
  by apply currentSelections_advanced.
Qed.

Lemma nextRound_enters_an_empty_round_witness :
  ∃ p',
    projects (appData (serve (PostNextRound (VBool true)) revisited)) !! 0%nat
    = Some p'
    ∧ currentSelections p' = []
    ∧ nextRound (VBool true) (serve (PostNextRound (VBool true)) revisited)
      = (Ok (Json json_EmptySelection),
         serve (PostNextRound (VBool true)) revisited).
Proof.
  destruct (nextRound_enters_an_empty_round revisited revisited
              (serve (PostNextRound (VBool true)) revisited) 0
              revisited_project (VBool true))
    as (p' & Hp' & _ & Hsel & _ & Hagain).
  - split; reflexivity.
  - reflexivity.
  - exists p'. split; [exact Hp'|]. split; [exact Hsel|apply Hagain].
Defined.

(** X10.  What was kept in a round is what the next round offers.  After a
    successful [nextRound] from an integer round N with 1 ≤ N < 2^53 the
    project is at round N+1 and the candidates of that round are the
    selections of round N, in their order, whatever the directory holds;
    the next [GET /] lists them and shows the first of them. *)
Theorem nextRound_candidates_are_the_selections
    (readdir : string → option (list string))
    (w w0 w1 : World) (i : nat) (p : Project) (force : value) (N : Z) :
  active w i p w0 →
  currentRound p = Int N →
  1 ≤ N < 2 ^ 53 →
  nextRound force w = (Ok (Json json_success), w1) →
  ∃ p' w2 v,
    projects (appData w1) !! i = Some p'
    ∧ currentRound p' = Int (N + 1)
    ∧ resolveCandidates readdir p' = currentSelections p
    ∧ currentSelections p ≠ []
    ∧ index readdir None w1 = (Ok (Render v), w2)
    ∧ view_imageList v = currentSelections p
    ∧ head (currentSelections p) = Some (view_fileName v).
Proof.
  intros Hact HN Hle Hrun.
  destruct (nextRound_success_inv _ _ _ _ _ _ Hact Hrun)
    as (Hsel & Hgo & Hps & Ha & _).
  assert (active w1 i (advanced force p) w1) as Hact1.
  { eapply active_after_update; [exact Hact|apply advanced_same|done..]. }
  assert (currentRound (advanced force p) = Int (N + 1)) as Hround.
  { rewrite (proj2 (advanced_same force p)), HN. apply succ_exact. lia. }
  assert (resolveCandidates readdir (advanced force p) = currentSelections p)
    as Hcands.
  { unfold resolveCandidates. rewrite Hround.
    rewrite decide_False by (intros [= Heq]; lia).
    rewrite pred_exact by lia. replace (N + 1 - 1) with N by lia.
    unfold currentSelections, roundSelection_or_empty, roundSelection.
    rewrite HN. unfold advanced. rewrite HN, succ_exact by lia. cbn.
    destruct (truthy force || has_selections _); cbn; [|done].
    rewrite lookup_insert_ne; [done|].
    intros Heq. apply (inj pretty) in Heq. lia. }
  destruct (index_view readdir None w1 w1 i _ Hact1) as (w2 & Hrun2 & _).
  rewrite Hcands in Hrun2.
  exists (advanced force p), w2. eexists.
  split; [apply Hact1|]. split; [done|]. split; [done|]. split; [done|].
  split; [exact Hrun2|]. split; [done|].
  cbn [view_fileName]. change (requested None (advanced force p)) with "".
  destruct (currentSelections p) as [|c rest]; [done|].
  unfold shown. cbn [String.eqb orb andb head default length].
  by rewrite bool_decide_eq_true_2 by lia.
Qed.

Lemma nextRound_candidates_are_the_selections_witness :
  ∃ p' w2 v,
    projects (appData (serve (PostNextRound (VBool true)) revisited)) !! 0%nat
    = Some p'
    ∧ resolveCandidates (λ _, Some ["z.png"]) p' = ["c.png"]
    ∧ index (λ _, Some ["z.png"]) None
        (serve (PostNextRound (VBool true)) revisited)
      = (Ok (Render v), w2)
    ∧ view_fileName v = "c.png".
Proof.
  destruct (nextRound_candidates_are_the_selections (λ _, Some ["z.png"])
              revisited revisited
              (serve (PostNextRound (VBool true)) revisited) 0
              revisited_project (VBool true) 2)
    as (p' & w2 & v & Hp' & _ & Hcands & _ & Hrun & _ & Hhead).
  - split; reflexivity.
  - reflexivity.
  - lia.
  - reflexivity.
  - exists p', w2, v. split; [exact Hp'|]. split; [exact Hcands|].
    split; [exact Hrun|]. by injection Hhead.
Defined.


(** ** Toggling, case by case *)

Lemma toggleSelection_no_name
    (w w0 : World) (i : nat) (p : Project) (fileName : option string) :
  active w i p w0 →
  truthy_str fileName = false →
  toggleSelection fileName w = (Ok (Json json_failure), w0).
Proof.
  intros Hact Hname.
  unfold toggleSelection. rewrite (bind_Ok _ _ _ _ _ (proj1 Hact)).
  destruct fileName as [f|]; [|done]. cbn in Hname.
  apply negb_false_iff in Hname. by rewrite Hname.
Qed.

(** X11.  [toggleSelection] without a usable file name, that is with no
    [fileName] or with the empty string, answers [{ success: false }] and
    leaves every project as it was; nothing is saved by the handler. *)
Theorem toggleSelection_rejects_empty_name
    (w w0 : World) (i : nat) (p : Project) (fileName : option string) :
  active w i p w0 →
  truthy_str fileName = false →
  toggleSelection fileName w = (Ok (Json json_failure), w0)
  ∧ projects (appData w0) = projects (appData w).
Proof.
  intros Hact Hname. split; [|by eapply active_projects].
  by eapply toggleSelection_no_name.
Qed.

Lemma toggleSelection_rejects_empty_name_witness :
  toggleSelection (Some "") revisited = (Ok (Json json_failure), revisited)
  ∧ toggleSelection None revisited = (Ok (Json json_failure), revisited).
Proof.
  split.
  - apply (toggleSelection_rejects_empty_name revisited revisited 0
             revisited_project (Some "")); [split|]; reflexivity.
  - apply (toggleSelection_rejects_empty_name revisited revisited 0
             revisited_project None); [split|]; reflexivity.
Defined.

(** X12.  One [toggleSelection] for a non-empty file name.  If the file is
    not selected in the open round it is appended after the selections
    already there and the answer says [selected: true]; if it is selected,
    every occurrence of it is removed, the others keep their order, and the
    answer says [selected: false].  Either way the open round has an entry
    afterwards, the other file names are selected exactly if they were, the
    entries of the other rounds, the round number and the file remembered
    are untouched, and the document is saved. *)
Theorem toggleSelection_once
    (w w0 : World) (i : nat) (p : Project) (f : string) :
  active w i p w0 →
  f ≠ "" →
  ∃ w1 p',
    toggleSelection (Some f) w
    = (Ok (Json (json_selected (negb (includes f (currentSelections p))))), w1)
    ∧ projects (appData w1) !! i = Some p'
    ∧ (f ∉ currentSelections p →
       roundSelection (currentRound p) p' = Some (currentSelections p ++ [f]))
    ∧ (f ∈ currentSelections p →
       roundSelection (currentRound p) p'
       = Some (without f (currentSelections p))
       ∧ f ∉ without f (currentSelections p))
    ∧ (∀ g, g ≠ f →
         g ∈ currentSelections p' ↔ g ∈ currentSelections p)
    ∧ (∀ k, k ≠ currentRound p → roundSelection k p' = roundSelection k p)
    ∧ currentRound p' = currentRound p
    ∧ lastFileName p' = lastFileName p
    ∧ written w1 = appData w1 :: written w0.
Proof.
  intros Hact Hf.
  destruct (toggleSelection_run w w0 i p f Hact Hf)
    as (w1 & Hrun & Hps & _ & Hsaved).
  exists w1, (toggled f p). split; [done|]. split.
  { rewrite Hps. eapply insert_lookup_active, Hact. }
  assert (roundSelection (currentRound p) (toggled f p)
          = Some (toggle f (currentSelections p))) as Hcur.
  { unfold toggled, roundSelection. cbn. apply lookup_insert_eq. }
  split; [|split; [|split]].
  - intros Hnotin. by rewrite Hcur, toggle_absent.
  - intros Hin. rewrite Hcur, toggle_present by done. split; [done|].
    rewrite elem_of_without. by intros [? _].
  - intros g Hg. rewrite currentSelections_toggled.
    destruct (decide (f ∈ currentSelections p)) as [Hin|Hnotin].
    + rewrite toggle_present, elem_of_without by done.
      split; [by intros [_ ?]|done].
    + rewrite toggle_absent, elem_of_app, list_elem_of_singleton by done.
      split; [by intros [?|?]|by left].
  - split; [|done]. intros k Hk. unfold toggled, roundSelection. cbn.
    apply lookup_insert_ne. intros Heq. apply Hk. by apply (inj ToString).
Qed.

Lemma toggleSelection_once_witness :
  ∃ w1 p',
    toggleSelection (Some "e.png") revisited
    = (Ok (Json (json_selected true)), w1)
    ∧ projects (appData w1) !! 0%nat = Some p'
    ∧ roundSelection (Int 2) p' = Some ["c.png"; "e.png"].
Proof.
  destruct (toggleSelection_once revisited revisited 0 revisited_project
              "e.png")
    as (w1 & p' & Hrun & Hp' & Happend & _).
  - split; reflexivity.
  - discriminate.
  - exists w1, p'. split; [exact Hrun|]. split; [exact Hp'|].
    apply Happend. intros Hin%list_elem_of_In.
    destruct Hin as [Heq|[]]. discriminate.
Defined.

(** ** Every request, in closed form *)

Lemma AppData_eq (d : AppData) (a : string) (ps : list Project) :
  activeProjectId d = a → projects d = ps → d = mkAppData a ps.
Proof. destruct d. cbn. by intros -> ->. Qed.

Lemma updateSettings_world (w w0 : World) (i : nat) (p : Project)
    (x f : option string) :
  active w i p w0 →
  ∃ w1,
    updateSettings x f w = (Ok (Redirect "/"), w1)
    ∧ appData w1
      = mkAppData (activeProjectId (appData w0))
          (<[i := set_settings x f p]> (projects (appData w0)))
    ∧ written w1 = appData w1 :: written w0.
Proof.
  intros [Hrun Hp]. unfold updateSettings.
  rewrite (bind_Ok _ _ _ _ _ Hrun). run Hp.
  eexists. split; [reflexivity|]. cbn. split; [|done].
  by erewrite list_alter_insert_at by exact Hp.
Qed.

Lemma switchRound_world (w w0 : World) (i : nat) (p : Project) (round : value) :
  active w i p w0 →
  (truthy round = false ∧ switchRound round w = (Ok (Redirect "/"), w0))
  ∨ (truthy round = true
     ∧ ∃ w1,
         switchRound round w = (Ok (Redirect "/"), w1)
         ∧ appData w1
           = mkAppData (activeProjectId (appData w0))
               (<[i := switched round p]> (projects (appData w0)))
         ∧ written w1 = appData w1 :: written w0).
Proof.
  intros [Hrun Hp]. unfold switchRound, switched.
  rewrite (bind_Ok _ _ _ _ _ Hrun).
  destruct (truthy round); run Hp; [right|by left].
  split; [done|]. eexists. split; [reflexivity|]. cbn. split; [|done].
  rewrite list_alter_alter_eq. by erewrite list_alter_insert_at by exact Hp.
Qed.

Lemma createProject_world (w : World) (uuid : string) (n f : option string) :
  createProject uuid n f w
  = (Ok (Redirect "/"),
     saved (mkWorld (mkAppData uuid (projects (appData w) ++ [created uuid n f]))
              (written w))).
Proof. done. Qed.

Lemma switchProject_world (w : World) (projectId : option string) :
  (∃ pid i p,
     projectId = Some pid
     ∧ list_find (id_is projectId) (projects (appData w)) = Some (i, p)
     ∧ switchProject projectId w
       = (Ok (Redirect "/"),
          saved (mkWorld (mkAppData pid (projects (appData w))) (written w))))
  ∨ (list_find (id_is projectId) (projects (appData w)) = None
     ∧ switchProject projectId w = (Ok (Redirect "/"), w)).
Proof.
  unfold switchProject. run I.
  destruct (list_find _ _) as [[i p]|] eqn:Hfind; run I; [left|by right].
  pose proof Hfind as (_ & Hid & _)%list_find_Some. unfold id_is in Hid.
  exists (id p), i, p. split; [done|]. split; [done|]. by rewrite Hid.
Qed.

Lemma deleteProject_world (w : World) (projectId : option string) :
  (1 < length (projects (appData w)))%nat →
  let ps := remaining projectId (projects (appData w)) in
  let a := activeProjectId (appData w) in
  deleteProject projectId w
  = if bool_decide (Some a = projectId) then
      match ps with
      | first :: _ =>
          (Ok (Redirect "/"),
           saved (mkWorld (mkAppData (id first) ps) (written w)))
      | [] => (TypeError, mkWorld (mkAppData a ps) (written w))
      end
    else (Ok (Redirect "/"), saved (mkWorld (mkAppData a ps) (written w))).
Proof.
  intros Hlen. cbn zeta. unfold deleteProject, remaining. run I.
  rewrite bool_decide_eq_false_2 by lia. run I.
  cbn [appData activeProjectId projects].
  case_bool_decide as Hactive; [|by run I].
  unfold deref. run I. cbn [appData projects].
  by destruct (filter _ _) as [|first rest]; run I.
Qed.

Lemma project_step_id (p q : Project) : project_step p q → id q = id p.
Proof.
  destruct 1; try done; [apply viewed_same|apply advanced_same].
Qed.

(** The handlers that work on the active project: they return, and either
    leave the state in which the project was resolved, or replace the
    project by one of the objects of [project_step]; apart from [GET /]
    they then save the document. *)
Lemma handle_active (w w0 : World) (i : nat) (p : Project) (r : request) :
  uses_active r →
  active w i p w0 →
  ∃ res w1,
    handle r w = (Ok res, w1)
    ∧ (w1 = w0
       ∨ ∃ q, project_step p q
              ∧ appData w1
                = mkAppData (activeProjectId (appData w0))
                    (<[i := q]> (projects (appData w0)))
              ∧ (persisted w1 ∨ is_index r)).
Proof.
  intros Huses Hact.
  destruct r as [readdir file|imageName present|x f|uuid n f|projectId|round
                |projectId|fileName|failure|force]; cbn [handle]; try done.
  - (* GET / *)
    destruct (index_view readdir file w w0 i p Hact) as (w1 & Hrun & Hps & Ha).
    eexists _, w1. split; [exact Hrun|]. right.
    exists (viewed readdir file p). split; [constructor|].
    split; [by apply AppData_eq|by right].
  - (* GET /image *)
    destruct Hact as [Hrun Hp]. unfold image.
    rewrite (bind_Ok _ _ _ _ _ Hrun). run Hp.
    destruct (filePath p); [destruct (_ && _)|]; eexists _, w0;
      (split; [reflexivity|by left]).
  - (* POST /updateSettings *)
    destruct (updateSettings_world w w0 i p x f Hact) as (w1 & Hrun & Hd & Hw).
    eexists _, w1. split; [exact Hrun|]. right.
    exists (set_settings x f p). split; [constructor|]. split; [done|].
    left. unfold persisted. by rewrite Hw.
  - (* POST /switchRound *)
    destruct (switchRound_world w w0 i p round Hact)
      as [[Hfalsy Hrun]|(Htruthy & w1 & Hrun & Hd & Hw)].
    + eexists _, w0. split; [exact Hrun|by left].
    + eexists _, w1. split; [exact Hrun|]. right.
      exists (switched round p). split; [by constructor|]. split; [done|].
      left. unfold persisted. by rewrite Hw.
  - (* POST /toggleSelection *)
    destruct (decide (truthy_str fileName = false)) as [Hname|Hname].
    + pose proof (toggleSelection_no_name w w0 i p fileName Hact Hname)
        as Hrun.
      eexists _, w0. split; [exact Hrun|by left].
    + destruct fileName as [f|]; [|done].
      assert (f ≠ "") as Hf.
      { intros ->. by apply Hname. }
      destruct (toggleSelection_run w w0 i p f Hact Hf)
        as (w1 & Hrun & Hps & Ha & Hw).
      eexists _, w1. split; [exact Hrun|]. right.
      exists (toggled f p). split; [by constructor|].
      split; [by apply AppData_eq|]. left. unfold persisted. by rewrite Hw.
  - (* POST /finishRound *)
    unfold finishRound. rewrite (bind_Ok _ _ _ _ _ (proj1 Hact)).
    destruct failure; eexists _, w0; (split; [reflexivity|by left]).
  - (* POST /nextRound *)
    destruct (decide (currentSelections p = [])) as [Hsel|Hsel].
    { eexists _, w0. split; [by eapply nextRound_empty|by left]. }
    destruct (has_selections (roundSelection (succ (currentRound p)) p)
              && negb (truthy force)) eqn:Hstop.
    { eexists _, w0. split; [by eapply nextRound_confirm|by left]. }
    destruct (nextRound_advance _ _ _ _ force Hact Hsel Hstop)
      as (w1 & Hrun & Hps & Ha & Hw).
    eexists _, w1. split; [exact Hrun|]. right.
    exists (advanced force p). split; [by constructor|].
    split; [by apply AppData_eq|]. left. unfold persisted. by rewrite Hw.
Qed.

(** The same handlers on a document without projects: they return and
    change nothing. *)
Lemma handle_no_project (w : World) (r : request) :
  uses_active r →
  projects (appData w) = [] →
  ∃ res, handle r w = (Ok res, w).
Proof.
  intros Huses Hnil. pose proof (getActiveProject_empty w Hnil) as Hnone.
  destruct r; cbn [handle]; try done.
  - unfold index. rewrite (bind_Ok _ _ _ _ _ Hnone). by eexists.
  - unfold image. rewrite (bind_Ok _ _ _ _ _ Hnone). by eexists.
  - unfold updateSettings. rewrite (bind_Ok _ _ _ _ _ Hnone). by eexists.
  - unfold switchRound. rewrite (bind_Ok _ _ _ _ _ Hnone). by eexists.
  - unfold toggleSelection. rewrite (bind_Ok _ _ _ _ _ Hnone). by eexists.
  - unfold finishRound. rewrite (bind_Ok _ _ _ _ _ Hnone). by eexists.
  - unfold nextRound. rewrite (bind_Ok _ _ _ _ _ Hnone). by eexists.
Qed.

(** Resolution leaves the state as it is or leaves the repaired document
    saved. *)
Lemma active_persisted (w w0 : World) (i : nat) (p : Project) :
  active w i p w0 → w0 = w ∨ persisted w0.
Proof.
  intros [Hrun _].
  destruct (getActiveProject_cases w)
    as [(j & q & _ & Hr)|[(first & rest & _ & _ & Hr)|[_ Hr]]];
    rewrite Hr in Hrun; simplify_eq; [by left|by right].
Qed.

(** Every request leaves the document in one of the ways of [serves]. *)
Lemma serve_serves (w : World) (r : request) :
  serves w r (appData (serve r w)).
Proof.
  unfold serve.
  destruct (decide (uses_active r)) as [Huses|Hother].
  - destruct (getActiveProject_resolves w) as [(i & p & w0 & Hact)|[Hnil Hnone]].
    + destruct (handle_active w w0 i p r Huses Hact)
        as (res & w1 & Hrun & [->|(q & Hstep & Hd & _)]);
        rewrite Hrun; cbn [snd].
      * eapply serves_resolved, Hact.
      * rewrite Hd. by eapply serves_active.
    + destruct (handle_no_project w r Huses Hnil) as [res Hrun].
      rewrite Hrun. apply serves_unchanged.
  - destruct r as [| | |uuid n f|projectId| |projectId| | |];
      try (by destruct Hother); cbn [handle].
    + rewrite createProject_world. by eapply serves_created.
    + destruct (switchProject_world w projectId)
        as [(pid & i & p & -> & Hfind & Hrun)|[_ Hrun]]; rewrite Hrun.
      * apply list_find_Some in Hfind as (Hp & Hid & _).
        eapply (serves_switched _ _ pid p); [done| |].
        -- by eapply list_elem_of_lookup_2.
        -- unfold id_is in Hid. congruence.
      * apply serves_unchanged.
    + destruct (decide (1 < length (projects (appData w)))%nat) as [Hlen|Hlen].
      * rewrite (deleteProject_world w projectId Hlen).
        pose proof (serves_deleted w _ projectId eq_refl Hlen) as Hserves.
        case_bool_decide as Hactive.
        -- destruct (remaining projectId (projects (appData w)))
             as [|first rest] eqn:Hrem; exact Hserves.
        -- exact Hserves.
      * rewrite deleteProject_last by lia. apply serves_unchanged.
Qed.

(** Unless it is a [GET /] or throws, a request leaves the state as it was
    or leaves the document saved. *)
Lemma serve_persisted (w : World) (r : request) :
  ¬ is_index r →
  (∃ res, (handle r w).1 = Ok res) →
  serve r w = w ∨ persisted (serve r w).
Proof.
  intros Hpost [res Hok]. unfold serve.
  destruct (decide (uses_active r)) as [Huses|Hother].
  - destruct (getActiveProject_resolves w) as [(i & p & w0 & Hact)|[Hnil Hnone]].
    + destruct (handle_active w w0 i p r Huses Hact)
        as (res' & w1 & Hrun & [->|(q & _ & _ & [Hsaved|Hindex])]);
        rewrite Hrun; cbn [snd]; [|by right|done].
      by apply (active_persisted w w0 i p).
    + destruct (handle_no_project w r Huses Hnil) as [res' Hrun].
      rewrite Hrun. by left.
  - destruct r as [| | |uuid n f|projectId| |projectId| | |];
      try (by destruct Hother); cbn [handle] in *.
    + rewrite createProject_world. by right.
    + destruct (switchProject_world w projectId)
        as [(pid & i & p & -> & Hfind & Hrun)|[_ Hrun]]; rewrite Hrun;
        [by right|by left].
    + destruct (decide (1 < length (projects (appData w)))%nat) as [Hlen|Hlen].
      * rewrite (deleteProject_world w projectId Hlen) in Hok |- *.
        case_bool_decide as Hactive; [|by right].
        by destruct (remaining projectId (projects (appData w))); [|right].
      * rewrite deleteProject_last by lia. by left.
Qed.

(** ** Saving *)

(** X13.  Every change that a request other than [GET /] makes to the
    document is saved before the request is answered: in any state, when
    the handler returns, either the state is as it was (nothing changed,
    nothing saved) or the last document handed to [saveData] is the
    document in memory. *)
Theorem post_requests_are_saved (w : World) (r : request) :
  ¬ is_index r →
  (handle r w).1 ≠ TypeError →
  serve r w = w ∨ persisted (serve r w).
Proof.
  intros Hpost Hok. apply serve_persisted; [done|].
  destruct (handle r w).1 as [res|]; [by exists res|done].
Qed.

Lemma post_requests_are_saved_witness :
  persisted (serve (PostToggleSelection (Some "a.png")) dangling)
  ∧ serve (PostNextRound VUndefined) startup = startup.
Proof.
  split.
  - destruct (post_requests_are_saved dangling
                (PostToggleSelection (Some "a.png"))) as [Hsame|Hsaved].
    + intros [].
    + discriminate.
    + discriminate Hsame.
    + exact Hsaved.
  - destruct (post_requests_are_saved startup (PostNextRound VUndefined))
      as [Hsame|Hsaved].
    + intros [].
    + discriminate.
    + exact Hsame.
    + reflexivity.
Defined.

(** X14.  [GET /] is the exception: the entry that it creates for the open
    round stays unsaved.  When no file is requested, the file remembered
    is a candidate (or there is no candidate at all) and the open round has
    no entry yet, [GET /] gives the round the empty array as its entry in
    memory and saves nothing, so the document in memory differs from the
    one it started from while the saved documents are the same. *)
Theorem index_leaves_the_new_entry_unsaved
    (readdir : string → option (list string)) (file : option string)
    (w w0 : World) (i : nat) (p : Project) :
  active w i p w0 →
  truthy_str file = false →
  roundSelection (currentRound p) p = None →
  (lastFileName p ≠ "" ∧ lastFileName p ∈ resolveCandidates readdir p)
  ∨ resolveCandidates readdir p = [] →
  ∃ w1 v,
    index readdir file w = (Ok (Render v), w1)
    ∧ projects (appData w1) !! i
      = Some (set_roundSelection (currentRound p) [] p)
    ∧ written w1 = written w0
    ∧ appData w1 ≠ appData w0.
Proof.
  intros [Hrun Hp] Hfile Hcur Hkeep. unfold index.
  rewrite (bind_Ok _ _ _ _ _ Hrun). rewrite Hfile. run Hp.
  rewrite Hcur. run Hp.
  assert ((String.eqb (lastFileName p) ""
           || negb (includes (lastFileName p) (resolveCandidates readdir p)))
          && bool_decide (0 < length (resolveCandidates readdir p))%nat
          = false) as Hcond.
  { destruct Hkeep as [[Hne Hin]| ->]; [|by rewrite andb_false_r].
    unfold includes.
    by rewrite (proj2 (String.eqb_neq _ "")), bool_decide_eq_true_2. }
  rewrite Hcond.
  destruct (bool_decide (length (resolveCandidates readdir p) = 0%nat));
    run Hp; (eexists _, _; split; [reflexivity|]);
    (split; [eapply assigned_lookup, Hp|]); (split; [done|]);
    intros Heq; apply (f_equal projects) in Heq;
    apply (f_equal (λ l, l !! i)) in Heq; cbn in Heq;
    rewrite list_lookup_alter_eq, Hp in Heq; cbn in Heq;
    injection Heq as Heq; apply (f_equal roundSelections) in Heq;
    apply (f_equal (λ m, m !! ToString (currentRound p))) in Heq;
    cbn in Heq; rewrite lookup_insert_eq in Heq;
    unfold roundSelection in Hcur; by rewrite Hcur in Heq.
Qed.

Lemma index_leaves_the_new_entry_unsaved_witness :
  ∃ w1 v,
    index (λ _, None) None startup = (Ok (Render v), w1)
    ∧ written w1 = written startup
    ∧ appData w1 ≠ appData startup.
Proof.
  destruct (index_leaves_the_new_entry_unsaved (λ _, None) None startup
              startup 0 defaultProject)
    as (w1 & v & Hrun & _ & Hwritten & Hne).
  - split; reflexivity.
  - reflexivity.
  - reflexivity.
  - right. reflexivity.
  - exists w1, v. split; [exact Hrun|]. split; [exact Hwritten|exact Hne].
Defined.

(** ** What holds throughout a run *)

Lemma toggle_ok (f : string) (l : list string) :
  f ≠ "" → NoDup l ∧ "" ∉ l → NoDup (toggle f l) ∧ "" ∉ toggle f l.
Proof.
  intros Hf [Hnodup Hblank]. destruct (decide (f ∈ l)) as [Hin|Hnotin].
  - rewrite toggle_present by done. split.
    + by apply NoDup_filter.
    + rewrite elem_of_without. by intros [_ ?].
  - rewrite toggle_absent by done. split.
    + apply NoDup_app. split; [done|]. split; [|apply NoDup_singleton].
      intros x Hx ->%list_elem_of_singleton. done.
    + rewrite elem_of_app, list_elem_of_singleton. by intros [?|?].
Qed.

Lemma selections_ok_current (p : Project) :
  selections_ok p → NoDup (currentSelections p) ∧ "" ∉ currentSelections p.
Proof.
  intros Hok. unfold currentSelections, roundSelection_or_empty, roundSelection.
  destruct (roundSelections p !! ToString (currentRound p)) as [l|] eqn:Hl.
  - by apply (Hok _ _ Hl).
  - split; [apply NoDup_nil_2|apply not_elem_of_nil].
Qed.

Lemma selections_ok_set (n : number) (l : list string) (p : Project) :
  selections_ok p → NoDup l ∧ "" ∉ l →
  selections_ok (set_roundSelection n l p).
Proof.
  intros Hok Hl key l'. cbn.
  destruct (decide (ToString n = key)) as [<-|Hne].
  - rewrite lookup_insert_eq. by intros [= <-].
  - rewrite lookup_insert_ne by done. apply Hok.
Qed.

Lemma empty_selection_ok : NoDup (@nil string) ∧ "" ∉ @nil string.
Proof. split; [apply NoDup_nil_2|apply not_elem_of_nil]. Qed.

Lemma project_step_selections_ok (p q : Project) :
  project_step p q → selections_ok p → selections_ok q.
Proof.
  intros Hstep Hok.
  destruct Hstep as [readdir file p|x f p|round p _|f p Hf|force p _ _].
  - unfold viewed. destruct (roundSelection (currentRound p) p); [done|].
    intros key l. cbn. apply (selections_ok_set _ [] p Hok empty_selection_ok).
  - done.
  - done.
  - apply selections_ok_set; [done|].
    by apply toggle_ok, selections_ok_current.
  - unfold advanced. destruct (_ || _); [|done].
    intros key l. cbn.
    apply (selections_ok_set _ [] p Hok empty_selection_ok).
Qed.

Lemma serves_selections_ok (w : World) (r : request) (d : AppData) :
  serves w r d →
  Forall selections_ok (projects (appData w)) →
  Forall selections_ok (projects d).
Proof.
  intros Hserves Hall.
  destruct Hserves as [|res w0 Hrun|i p w0 q Hact Hstep|uuid n f _
                      |projectId p _ _ _|projectId _ _]; cbn [projects].
  - done.
  - by apply getActiveProject_projects in Hrun as [-> _].
  - rewrite (active_projects _ _ _ _ Hact). apply Forall_insert; [done|].
    eapply project_step_selections_ok; [done|].
    eapply Forall_lookup_1; [exact Hall|]. by eapply active_lookup.
  - apply Forall_app. split; [done|]. apply Forall_singleton.
    intros key l. cbn. by rewrite lookup_empty.
  - done.
  - apply Forall_forall. intros x [_ Hx]%list_elem_of_filter.
    by eapply Forall_forall in Hall.
Qed.

(** X15.  Selections stay well formed.  In every state that the process
    reaches from its first start, whatever requests it serves, no selection
    list of any round of any project contains a file name twice, and none
    contains the empty name. *)
Theorem selections_have_no_duplicates (w : World) :
  reachable any_request w →
  Forall selections_ok (projects (appData w)).
Proof.
  induction 1 as [|w r Hreach IH _].
  - apply Forall_singleton. intros key l. cbn. by rewrite lookup_empty.
  - eapply serves_selections_ok; [apply serve_serves|exact IH].
Qed.

Lemma selections_have_no_duplicates_witness :
  Forall selections_ok
    (projects
       (appData
          (serve (PostToggleSelection (Some "a.png"))
             (serve (PostToggleSelection (Some "b.png"))
                (serve (PostToggleSelection (Some "a.png")) startup))))).
Proof.
  apply selections_have_no_duplicates.
  repeat (apply reachable_serve; [|exact I]). apply reachable_startup.
Defined.

Lemma active_exists_ids (d : AppData) :
  active_exists d ↔ activeProjectId d ∈ id <$> projects d.
Proof.
  unfold active_exists. rewrite list_elem_of_fmap. split.
  - intros (p & Hp & Hid). by exists p.
  - intros (p & Hid & Hp). by exists p.
Qed.

(** With an [activeProjectId] that names a project, resolution finds it
    and changes nothing. *)
Lemma active_exists_resolved (w : World) :
  active_exists (appData w) →
  ∃ i p, active w i p w ∧ id p = activeProjectId (appData w).
Proof.
  intros (q & Hq & Hid).
  destruct (list_find_elem_of (λ p, id p = activeProjectId (appData w))
              (projects (appData w)) q Hq Hid) as [[i p] Hfind].
  exists i, p. pose proof Hfind as (Hp & Hidp & _)%list_find_Some.
  split; [|done]. split; [by eapply getActiveProject_found|done].
Qed.

Lemma active_exists_same (w w0 : World) (i : nat) (p : Project) :
  active_exists (appData w) → active w i p w0 → w0 = w.
Proof.
  intros Hex [Hrun _].
  destruct (active_exists_resolved w Hex) as (j & q & [Hrun' _] & _).
  congruence.
Qed.

Lemma serves_active_exists (w : World) (r : request) (d : AppData) :
  serves w r d →
  fresh_uuid w r →
  well_formed (appData w) ∧ active_exists (appData w) →
  well_formed d ∧ active_exists d.
Proof.
  intros Hserves Hfresh [Hwf Hex].
  destruct Hserves as [|res w0 Hrun|i p w0 q Hact Hstep|uuid n f ->
                      |projectId p -> Hp Hid|projectId -> Hlen].
  - done.
  - destruct (active_exists_resolved w Hex) as (j & q & [Hrun' _] & _).
    rewrite Hrun' in Hrun. by simplify_eq.
  - pose proof (active_exists_same _ _ _ _ Hex Hact) as ->.
    assert (id <$> <[i := q]> (projects (appData w))
            = id <$> projects (appData w)) as Hids.
    { rewrite list_fmap_insert, (project_step_id _ _ Hstep).
      apply list_insert_id. rewrite list_lookup_fmap.
      by rewrite (proj2 Hact). }
    split.
    + destruct Hwf as [Hne Hnodup]. split; cbn.
      * intros Hnil. apply (f_equal length) in Hnil.
        rewrite length_insert in Hnil. by destruct (projects (appData w)).
      * by rewrite Hids.
    + apply active_exists_ids. cbn. rewrite Hids. by apply active_exists_ids.
  - destruct Hwf as [Hne Hnodup]. split.
    + split; cbn; [by destruct (projects (appData w))|].
      rewrite fmap_app. apply NoDup_app. split; [done|]. split.
      * intros x Hx [->|[]%elem_of_nil]%elem_of_cons. by cbn in Hfresh.
      * apply NoDup_singleton.
    + apply active_exists_ids. cbn. rewrite fmap_app, elem_of_app. right.
      apply list_elem_of_here.
  - split; [done|]. by exists p.
  - destruct Hwf as [Hne Hnodup].
    pose proof (filter_other_ids_nonempty projectId _ Hnodup Hlen) as Hrem.
    fold (remaining projectId (projects (appData w))) in Hrem.
    split.
    + split; cbn; [done|].
      eapply sublist_NoDup; [exact Hnodup|].
      apply fmap_sublist, sublist_filter.
    + case_bool_decide as Hactive.
      * destruct (remaining projectId (projects (appData w)))
          as [|first rest] eqn:Hlist; [done|].
        exists first. split; [apply list_elem_of_here|done].
      * destruct Hex as (q & Hq & Hidq). exists q. split; [|done]. cbn.
        apply list_elem_of_filter. split; [|done].
        unfold id_is. intros ->. apply Hactive. by rewrite Hidq.
Qed.

Lemma reachable_active_exists (w : World) :
  reachable fresh_uuid w →
  well_formed (appData w) ∧ active_exists (appData w).
Proof.
  induction 1 as [|w r Hreach IH Hadm].
  - split; [apply startup_well_formed|].
    exists defaultProject. split; [apply list_elem_of_here|done].
  - eapply serves_active_exists; [apply serve_serves|exact Hadm|exact IH].
Qed.

(** X16.  A run never needs the fallback.  In every state that the process
    reaches from its first start (the identifiers drawn by [createProject]
    being new), [activeProjectId] is the [id] of exactly one project and
    [getActiveProject] returns that project without changing or saving
    anything; and [deleteProject] does not throw there, whatever
    [projectId] it is given: the list that it is left with is never
    empty. *)
Theorem active_project_always_resolves (w : World) :
  reachable fresh_uuid w →
  NoDup (id <$> projects (appData w))
  ∧ (∃ i p,
       getActiveProject w = (Ok (Some i), w)
       ∧ projects (appData w) !! i = Some p
       ∧ id p = activeProjectId (appData w))
  ∧ (∀ projectId, (deleteProject projectId w).1 ≠ TypeError).
Proof.
  intros Hreach.
  destruct (reachable_active_exists w Hreach) as [[Hne Hnodup] Hex].
  split; [done|].
  destruct (active_exists_resolved w Hex) as (i & p & Hact & Hid).
  split. { exists i, p. by destruct Hact. }
  intros projectId.
  destruct (decide (1 < length (projects (appData w)))%nat) as [Hlen|Hlen].
  - rewrite (deleteProject_world w projectId Hlen).
    pose proof (filter_other_ids_nonempty projectId _ Hnodup Hlen) as Hrem.
    fold (remaining projectId (projects (appData w))) in Hrem.
    case_bool_decide; [|done].
    by destruct (remaining projectId (projects (appData w))).
  - by rewrite deleteProject_last by lia.
Qed.

Lemma active_project_always_resolves_witness :
  ∃ i p,
    getActiveProject
      (serve (PostDeleteProject (Some "p2"))
         (serve (PostCreateProject "p2" None None) startup))
    = (Ok (Some i),
       serve (PostDeleteProject (Some "p2"))
         (serve (PostCreateProject "p2" None None) startup))
    ∧ id p = "default".
Proof.
  destruct (active_project_always_resolves
              (serve (PostDeleteProject (Some "p2"))
                 (serve (PostCreateProject "p2" None None) startup)))
    as (_ & (i & p & Hrun & _ & Hid) & _).
  - apply reachable_serve; [apply reachable_serve|exact I].
    + apply reachable_startup.
    + cbn. intros Hin%list_elem_of_In. destruct Hin as [Heq|[]]. discriminate.
  - exists i, p. split; [exact Hrun|exact Hid].
Defined.

(** ** The project list *)

Lemma list_find_app_new (a : string) (ps : list Project) (q : Project) :
  list_find (λ p, id p = a) (ps ++ [q])
  = match list_find (λ p, id p = a) ps with
    | Some r => Some r
    | None => if decide (id q = a) then Some (length ps, q) else None
    end.
Proof.
  destruct (list_find (λ p, id p = a) ps) as [[j r]|] eqn:Hfind.
  - by erewrite list_find_app_l.
  - rewrite list_find_app_r by done. cbn.
    by case_decide.
Qed.

(** X17.  [createProject] always succeeds.  It puts a new project at the
    end of the list, leaves the existing projects as they are, makes the
    new [id] the active one and saves.  The new project is at round 1 with
    no selection and no remembered file, and its name is never empty.  When
    the [id] is new, the project that the next request works on is the new
    one; should the [id] collide with that of an existing project, it is
    that older project. *)
Theorem createProject_spec (w : World) (uuid : string) (n f : option string) :
  ∃ w1,
    createProject uuid n f w = (Ok (Redirect "/"), w1)
    ∧ projects (appData w1) = projects (appData w) ++ [created uuid n f]
    ∧ activeProjectId (appData w1) = uuid
    ∧ persisted w1
    ∧ (currentRound (created uuid n f), roundSelections (created uuid n f),
       lastFileName (created uuid n f)) = (Int 1, ∅, "")
    ∧ name (created uuid n f) ≠ ""
    ∧ (uuid ∉ id <$> projects (appData w) →
       active w1 (length (projects (appData w))) (created uuid n f) w1)
    ∧ (∀ j q, projects (appData w) !! j = Some q → id q = uuid →
       ∃ j' q', (j' ≤ j)%nat ∧ projects (appData w) !! j' = Some q'
                ∧ active w1 j' q' w1).
Proof.
  eexists. split; [apply createProject_world|]. cbn [saved appData projects
    activeProjectId]. split; [done|]. split; [done|]. split; [done|].
  split; [done|]. split.
  { cbn. destruct n as [s|]; cbn; [|done]. by destruct (String.eqb_spec s ""). }
  set (w1 := saved _).
  assert (list_find (λ p, id p = activeProjectId (appData w1))
            (projects (appData w1))
          = match list_find (λ p, id p = uuid) (projects (appData w)) with
            | Some r => Some r
            | None => Some (length (projects (appData w)), created uuid n f)
            end) as Hfind.
  { cbn. rewrite list_find_app_new. cbn. by rewrite decide_True. }
  split.
  - intros Hfresh.
    assert (list_find (λ p, id p = uuid) (projects (appData w)) = None) as Hnone.
    { apply list_find_None, Forall_forall. intros p Hp Hid. apply Hfresh.
      apply list_elem_of_fmap. by exists p. }
    rewrite Hnone in Hfind. split.
    + by eapply getActiveProject_found.
    + cbn. by rewrite lookup_app_r, Nat.sub_diag.
  - intros j q Hq Hid.
    destruct (list_find_elem_of (λ p, id p = uuid) (projects (appData w)) q)
      as [[j' q'] Hfound]; [by eapply list_elem_of_lookup_2|done|].
    rewrite Hfound in Hfind.
    pose proof Hfound as (Hq' & _ & Hfirst)%list_find_Some.
    exists j', q'. split.
    { destruct (decide (j' ≤ j)%nat); [done|].
      destruct (Hfirst j q Hq ltac:(lia) Hid). }
    split; [done|]. split.
    + by eapply getActiveProject_found.
    + cbn. by rewrite lookup_app_l by by eapply lookup_lt_Some.
Qed.

Lemma createProject_spec_witness :
  ∃ w1,
    createProject "p2" (Some "") None startup = (Ok (Redirect "/"), w1)
    ∧ active w1 1 (created "p2" (Some "") None) w1.
Proof.
  destruct (createProject_spec startup "p2" (Some "") None)
    as (w1 & Hrun & _ & _ & _ & _ & _ & Hfresh & _).
  exists w1. split; [exact Hrun|]. apply Hfresh.
  intros Hin%list_elem_of_In. destruct Hin as [Heq|[]]. discriminate.
Defined.

(** X18.  [switchProject] to the [id] of an existing project makes that
    [id] the active one, leaves the projects as they are and saves; the
    project that the next request works on is the first one that carries
    the [id].  With an [id] that no project carries, or without
    [projectId], nothing changes and nothing is saved. *)
Theorem switchProject_spec (w : World) (projectId : option string) :
  (∀ pid q, projectId = Some pid → q ∈ projects (appData w) → id q = pid →
     ∃ w1 i p,
       switchProject projectId w = (Ok (Redirect "/"), w1)
       ∧ projects (appData w1) = projects (appData w)
       ∧ activeProjectId (appData w1) = pid
       ∧ persisted w1
       ∧ active w1 i p w1
       ∧ id p = pid)
  ∧ ((∀ q, q ∈ projects (appData w) → projectId ≠ Some (id q)) →
     switchProject projectId w = (Ok (Redirect "/"), w)).
Proof.
  split.
  - intros pid q -> Hq Hid.
    destruct (switchProject_world w (Some pid))
      as [(pid' & i & p & Hpid & Hfind & Hrun)|[Hnone _]].
    + injection Hpid as <-. eexists _, i, p. split; [exact Hrun|].
      split; [done|]. split; [done|]. split; [done|].
      apply list_find_Some in Hfind as (Hp & Hidp & Hfirst).
      unfold id_is in Hidp. injection Hidp as Hidp. split; [|done]. split.
      * eapply (getActiveProject_found _ i p). apply list_find_Some.
        cbn. split; [done|]. split; [done|].
        intros j y Hy Hlt Heq. apply (Hfirst j y Hy Hlt).
        unfold id_is. by rewrite Heq.
      * done.
    + apply list_find_None in Hnone.
      eapply Forall_forall in Hnone; [|exact Hq].
      destruct Hnone. unfold id_is. by rewrite Hid.
  - intros Hnone.
    destruct (switchProject_world w projectId)
      as [(pid & i & p & Hpid & Hfind & _)|[_ Hrun]]; [|done].
    apply list_find_Some in Hfind as (Hp & Hidp & _).
    destruct (Hnone p); [by eapply list_elem_of_lookup_2|done].
Qed.

Lemma switchProject_spec_witness :
  (∃ w1 i p,
     switchProject (Some "default") dangling = (Ok (Redirect "/"), w1)
     ∧ active w1 i p w1
     ∧ id p = "default")
  ∧ switchProject (Some "nobody") dangling = (Ok (Redirect "/"), dangling).
Proof.
  destruct (switchProject_spec dangling (Some "default")) as [Hfound _].
  destruct (switchProject_spec dangling (Some "nobody")) as [_ Hmissing].
  split.
  - destruct (Hfound "default" revisited_project eq_refl)
      as (w1 & i & p & Hrun & _ & _ & _ & Hact & Hid).
    + apply list_elem_of_here.
    + reflexivity.
    + exists w1, i, p. split; [exact Hrun|]. split; [exact Hact|exact Hid].
  - apply Hmissing. intros q Hq%list_elem_of_In.
    destruct Hq as [<-|[<-|[]]]; discriminate.
Defined.

Lemma remaining_all (projectId : option string) (ps : list Project) :
  (∀ q, q ∈ ps → projectId ≠ Some (id q)) → remaining projectId ps = ps.
Proof.
  intros Hnone. unfold remaining. induction ps as [|a ps IH]; [done|].
  rewrite filter_cons_True by (apply Hnone, list_elem_of_here).
  rewrite IH; [done|]. intros q Hq. apply Hnone. by apply list_elem_of_further.
Qed.

(** With distinct ids, the projects kept are the list without one element. *)
Lemma remaining_delete (ps : list Project) (k : nat) (p : Project) :
  NoDup (id <$> ps) →
  ps !! k = Some p →
  remaining (Some (id p)) ps = delete k ps.
Proof.
  revert k. induction ps as [|a ps IH]; intros k Hnodup Hp; [done|].
  cbn in Hnodup. apply NoDup_cons in Hnodup as [Ha Hnodup].
  unfold remaining in *. destruct k as [|k]; cbn in Hp.
  - injection Hp as ->. rewrite filter_cons_False.
    + cbn. apply (remaining_all (Some (id p)) ps). intros q Hq [= Heq].
      apply Ha. rewrite Heq. apply list_elem_of_fmap. by exists q.
    + unfold id_is. by intros [].
  - rewrite filter_cons_True.
    + cbn. f_equal. by apply IH.
    + unfold id_is. intros [= Heq]. apply Ha. rewrite <- Heq.
      apply list_elem_of_fmap. exists p. split; [done|].
      by eapply list_elem_of_lookup_2.
Qed.

(** X19.  [deleteProject] among several projects with distinct ids.
    Deleting the [id] of a project removes exactly that project, keeps the
    others in their order and saves; the active project stays the active
    one unless it was the one deleted, in which case the first project
    left becomes active.  Deleting an [id] that no project carries leaves
    projects and active project as they are (and saves all the same). *)
Theorem deleteProject_spec (w : World) :
  NoDup (id <$> projects (appData w)) →
  (1 < length (projects (appData w)))%nat →
  (∀ k p,
     projects (appData w) !! k = Some p →
     ∃ w1 first,
       deleteProject (Some (id p)) w = (Ok (Redirect "/"), w1)
       ∧ projects (appData w1) = delete k (projects (appData w))
       ∧ length (projects (appData w1))
         = Nat.pred (length (projects (appData w)))
       ∧ (id p ∉ id <$> projects (appData w1))
       ∧ persisted w1
       ∧ head (projects (appData w1)) = Some first
       ∧ activeProjectId (appData w1)
         = if decide (activeProjectId (appData w) = id p)
           then id first else activeProjectId (appData w))
  ∧ (∀ projectId,
       (∀ q, q ∈ projects (appData w) → projectId ≠ Some (id q)) →
       ∃ w1,
         deleteProject projectId w = (Ok (Redirect "/"), w1)
         ∧ projects (appData w1) = projects (appData w)
         ∧ persisted w1
         ∧ (Some (activeProjectId (appData w)) ≠ projectId →
            appData w1 = appData w)).
Proof.
  intros Hnodup Hlen. split.
  - intros k p Hp.
    pose proof (remaining_delete _ _ _ Hnodup Hp) as Hrem.
    pose proof (filter_other_ids_nonempty (Some (id p)) _ Hnodup Hlen) as Hne.
    fold (remaining (Some (id p)) (projects (appData w))) in Hne.
    rewrite (deleteProject_world w (Some (id p)) Hlen). rewrite Hrem in *.
    destruct (delete k (projects (appData w))) as [|first rest] eqn:Hlist;
      [done|].
    assert (length (first :: rest) = Nat.pred (length (projects (appData w))))
      as Hlength.
    { rewrite <- Hlist, length_delete by done. lia. }
    assert ((id p ∉ id <$> (first :: rest))) as Hgone.
    { rewrite <- Hrem. intros (q & Hid & Hq)%list_elem_of_fmap.
      apply list_elem_of_filter in Hq as [Hkept _]. apply Hkept.
      unfold id_is. by rewrite Hid. }
    case_bool_decide as Hactive.
    + injection Hactive as Hactive. eexists _, first.
      split; [reflexivity|]. cbn. by rewrite decide_True.
    + eexists _, first. split; [reflexivity|]. cbn.
      rewrite decide_False; [done|]. intros Heq. apply Hactive. by rewrite Heq.
  - intros projectId Hnone.
    rewrite (deleteProject_world w projectId Hlen).
    rewrite (remaining_all _ _ Hnone).
    case_bool_decide as Hactive.
    + destruct (projects (appData w)) as [|first rest] eqn:Hps;
        [cbn in Hlen; lia|].
      eexists. split; [reflexivity|]. cbn. split; [done|]. split; [done|].
      intros Hother. by destruct Hother.
    + eexists. split; [reflexivity|]. cbn. split; [done|]. split; [done|].
      intros _. by destruct (appData w).
Qed.

Lemma deleteProject_spec_witness :
  ∃ w1,
    deleteProject (Some "p2")
      (serve (PostCreateProject "p2" None None) startup)
    = (Ok (Redirect "/"), w1)
    ∧ projects (appData w1) = [defaultProject]
    ∧ activeProjectId (appData w1) = "default".
Proof.
  destruct (deleteProject_spec
              (serve (PostCreateProject "p2" None None) startup))
    as [Hdelete _].
  - apply NoDup_cons. split.
    + intros Hin%list_elem_of_In. destruct Hin as [Heq|[]]. discriminate.
    + apply NoDup_singleton.
  - vm_compute. lia.
  - destruct (Hdelete 1%nat (created "p2" None None) eq_refl)
      as (w1 & first & Hrun & Hps & _ & _ & _ & Hfirst & Hactive).
    exists w1. split; [exact Hrun|]. split; [exact Hps|].
    rewrite Hactive. rewrite Hps in Hfirst. injection Hfirst as <-.
    reflexivity.
Defined.

(** X20.  [deleteProject] can throw.  In a document of at least two
    projects that all carry the [id] being deleted, that [id] being the
    active one, the handler empties the project list and then fails on
    [appData.projects[0].id]: the request ends in a [TypeError], the list
    in memory is empty, and nothing has been saved. *)
Theorem deleteProject_throws_on_shared_id (w : World) (pid : string) :
  (1 < length (projects (appData w)))%nat →
  Forall (λ p, id p = pid) (projects (appData w)) →
  activeProjectId (appData w) = pid →
  ∃ w1,
    deleteProject (Some pid) w = (TypeError, w1)
    ∧ projects (appData w1) = []
    ∧ written w1 = written w.
Proof.
  intros Hlen Hall Hactive.
  rewrite (deleteProject_world w (Some pid) Hlen).
  rewrite bool_decide_eq_true_2 by by rewrite Hactive.
  assert (remaining (Some pid) (projects (appData w)) = []) as ->.
  { unfold remaining. clear Hlen Hactive.
    induction Hall as [|p ps Hp _ IH]; [done|].
    rewrite filter_cons_False; [done|]. unfold id_is. intros Hkept.
    apply Hkept. by rewrite Hp. }
  by eexists.
Qed.

Lemma deleteProject_throws_on_shared_id_witness :
  ∃ w1,
    deleteProject (Some "default") twins = (TypeError, w1)
    ∧ projects (appData w1) = []
    ∧ written w1 = written twins.
Proof.
  apply (deleteProject_throws_on_shared_id twins "default").
  - cbn. lia.
  - apply Forall_cons. split; [reflexivity|].
    apply Forall_singleton. reflexivity.
  - reflexivity.
Defined.

(** ** Jumping between rounds *)

(** X22.  [switchRound] is a jump that loses no selection.  A request
    without a truthy [round] does nothing.  Otherwise the active project
    moves to the round that [parseInt] reads, forgets the file remembered,
    keeps every entry of [roundSelections] and its settings, and the
    document is saved; a second jump back to the round it came from gives
    the project as it was, except for the file remembered. *)
Theorem switchRound_spec
    (w w0 : World) (i : nat) (p : Project) (round : value) :
  active w i p w0 →
  (truthy round = false → switchRound round w = (Ok (Redirect "/"), w0))
  ∧ (truthy round = true →
     ∃ w1 p',
       switchRound round w = (Ok (Redirect "/"), w1)
       ∧ projects (appData w1) !! i = Some p'
       ∧ currentRound p' = parseInt round
       ∧ lastFileName p' = ""
       ∧ roundSelections p' = roundSelections p
       ∧ (id p', name p', filePath p', xSelected p')
         = (id p, name p, filePath p, xSelected p)
       ∧ persisted w1
       ∧ ∀ back, truthy back = true → parseInt back = currentRound p →
           ∃ w2,
             switchRound back w1 = (Ok (Redirect "/"), w2)
             ∧ projects (appData w2) !! i = Some (set_lastFileName "" p)).
Proof.
  intros Hact.
  destruct (switchRound_world w w0 i p round Hact)
    as [[Hfalsy Hrun]|(Htruthy & w1 & Hrun & Hd & Hw)].
  - split; [done|]. intros Htruthy. congruence.
  - split; [intros Hfalsy; congruence|]. intros _.
    exists w1, (switched round p). split; [done|].
    assert (projects (appData w1) !! i = Some (switched round p)) as Hp'.
    { rewrite Hd. eapply insert_lookup_active, Hact. }
    split; [done|]. do 4 (split; [done|]).
    split. { unfold persisted. by rewrite Hw. }
    intros back Hback Hparse.
    assert (active w1 i (switched round p) w1) as Hact1.
    { eapply active_after_update; [exact Hact|done|by rewrite Hd..]. }
    destruct (switchRound_world w1 w1 i _ back Hact1)
      as [[Hfalsy _]|(_ & w2 & Hrun2 & Hd2 & _)]; [congruence|].
    exists w2. split; [done|]. rewrite Hd2. cbn.
    rewrite list_lookup_insert_eq by by eapply lookup_lt_Some.
    f_equal. unfold switched. rewrite Hparse. by destruct p.
Qed.

Lemma switchRound_spec_witness :
  switchRound (VNumber (Int 0)) revisited = (Ok (Redirect "/"), revisited)
  ∧ ∃ w1 p',
      switchRound (VString "0") revisited = (Ok (Redirect "/"), w1)
      ∧ projects (appData w1) !! 0%nat = Some p'
      ∧ currentRound p' = Int 0
      ∧ roundSelections p' = roundSelections revisited_project.
Proof.
  assert (active revisited 0 revisited_project revisited) as Hact
    by (split; reflexivity).
  split.
  - apply (proj1 (switchRound_spec revisited revisited 0 revisited_project
                    (VNumber (Int 0)) Hact)). reflexivity.
  - destruct (proj2 (switchRound_spec revisited revisited 0 revisited_project
                       (VString "0") Hact) eq_refl)
      as (w1 & p' & Hrun & Hp' & Hround & _ & Hsel & _).
    exists w1, p'. split; [exact Hrun|]. split; [exact Hp'|].
    split; [exact Hround|exact Hsel].
Defined.

(** ** Settings *)

(** X23.  [updateSettings] overwrites both settings of the active project
    with the request fields as they are, absent fields included, and
    touches nothing else: round, selections and remembered file are kept,
    and so are the other projects.  From round 2 on the candidates are
    unaffected; in round 1 they are read from the new directory at once,
    and there are none when the request carried no [filePath]. *)
Theorem updateSettings_spec
    (w w0 : World) (i : nat) (p : Project) (x f : option string) :
  active w i p w0 →
  ∃ w1 p',
    updateSettings x f w = (Ok (Redirect "/"), w1)
    ∧ projects (appData w1) !! i = Some p'
    ∧ (xSelected p', filePath p') = (x, f)
    ∧ (id p', name p', currentRound p', roundSelections p', lastFileName p')
      = (id p, name p, currentRound p, roundSelections p, lastFileName p)
    ∧ (∀ j, j ≠ i → projects (appData w1) !! j = projects (appData w) !! j)
    ∧ persisted w1
    ∧ (∀ readdir,
         resolveCandidates readdir p'
         = if decide (currentRound p = Int 1)
           then getImagesFromDir readdir f
           else resolveCandidates readdir p)
    ∧ (f = None → currentRound p = Int 1 →
       ∀ readdir, resolveCandidates readdir p' = []).
Proof.
  intros Hact.
  destruct (updateSettings_world w w0 i p x f Hact) as (w1 & Hrun & Hd & Hw).
  exists w1, (set_settings x f p). split; [done|]. split.
  { rewrite Hd. eapply insert_lookup_active, Hact. }
  split; [done|]. split; [done|]. split.
  { intros j Hj. rewrite Hd. cbn. rewrite list_lookup_insert_ne by done.
    by rewrite (active_projects _ _ _ _ Hact). }
  split. { unfold persisted. by rewrite Hw. }
  split.
  - intros readdir. unfold resolveCandidates. cbn. by case_decide.
  - intros -> Hone readdir. unfold resolveCandidates. cbn.
    by rewrite decide_True.
Qed.

Lemma updateSettings_spec_witness :
  ∃ w1 p',
    updateSettings (Some "x") None startup = (Ok (Redirect "/"), w1)
    ∧ projects (appData w1) !! 0%nat = Some p'
    ∧ filePath p' = None
    ∧ resolveCandidates (λ _, Some ["a.png"]) p' = [].
Proof.
  destruct (updateSettings_spec startup startup 0 defaultProject (Some "x")
              None)
    as (w1 & p' & Hrun & Hp' & Hset & _ & _ & _ & _ & Hnone).
  - split; reflexivity.
  - exists w1, p'. split; [exact Hrun|]. split; [exact Hp'|].
    split; [by injection Hset|]. by apply Hnone.
Defined.

(** ** A document without projects *)

(** X24.  With an empty project list every handler other than
    [createProject] returns and leaves the state as it is: [GET /] renders
    the page without project, file or image, [GET /image] answers "not
    found", the selection and round handlers answer [{ success: false }],
    and the form handlers just redirect. *)
Theorem no_project_no_effect (w : World) (r : request) :
  projects (appData w) = [] →
  (∀ uuid n f, r ≠ PostCreateProject uuid n f) →
  handle r w
  = (Ok match r with
        | GetIndex _ _ => Render (mkView None [] "" [] [])
        | GetImage _ _ => NotFound
        | PostToggleSelection _ | PostFinishRound _ | PostNextRound _ =>
            Json json_failure
        | _ => Redirect "/"
        end, w).
Proof.
  intros Hnil Hother. pose proof (getActiveProject_empty w Hnil) as Hnone.
  destruct r as [readdir file|imageName present|x f|uuid n f|projectId|round
                |projectId|fileName|failure|force]; cbn [handle].
  - unfold index. rewrite (bind_Ok _ _ _ _ _ Hnone). run I. by rewrite Hnil.
  - unfold image. by rewrite (bind_Ok _ _ _ _ _ Hnone).
  - unfold updateSettings. by rewrite (bind_Ok _ _ _ _ _ Hnone).
  - by destruct (Hother uuid n f).
  - unfold switchProject. run I. by rewrite Hnil.
  - unfold switchRound. by rewrite (bind_Ok _ _ _ _ _ Hnone).
  - apply deleteProject_last. rewrite Hnil. cbn. lia.
  - unfold toggleSelection. by rewrite (bind_Ok _ _ _ _ _ Hnone).
  - unfold finishRound. by rewrite (bind_Ok _ _ _ _ _ Hnone).
  - unfold nextRound. by rewrite (bind_Ok _ _ _ _ _ Hnone).
Qed.

Lemma no_project_no_effect_witness :
  handle (PostNextRound (VBool true)) (mkWorld (mkAppData "gone" []) [])
  = (Ok (Json json_failure), mkWorld (mkAppData "gone" []) []).
Proof.
  apply (no_project_no_effect (mkWorld (mkAppData "gone" []) [])
           (PostNextRound (VBool true))).
  - reflexivity.
  - discriminate.
Defined.

(** ** The handlers that only read *)

(** X25.  [GET /image] and [POST /finishRound] never modify a project:
    the state they leave is the one that [getActiveProject] leaves, that
    is the state as it was, or with a dangling [activeProjectId] repaired.
    [GET /image] sends a file only for a non-empty [name], from the
    non-empty [filePath] of the active project, when the file is there;
    without an active project it answers "not found" and [finishRound]
    answers [{ success: false }]. *)
Theorem image_and_finishRound_read_only
    (w w0 : World) (res : option nat) :
  getActiveProject w = (Ok res, w0) →
  (∀ imageName present,
     (image imageName present w).2 = w0
     ∧ (res = None → (image imageName present w).1 = Ok NotFound)
     ∧ ∀ dir file, (image imageName present w).1 = Ok (SendFile dir file) →
         imageName = Some file ∧ file ≠ "" ∧ dir ≠ "" ∧ present = true
         ∧ ∃ i p, res = Some i ∧ projects (appData w0) !! i = Some p
                  ∧ filePath p = Some dir)
  ∧ (∀ failure,
       (finishRound failure w).2 = w0
       ∧ (res = None → (finishRound failure w).1 = Ok (Json json_failure))).
Proof.
  intros Hrun.
  assert (∀ i, res = Some i → ∃ p, projects (appData w0) !! i = Some p)
    as Hvalid.
  { intros i ->.
    destruct (getActiveProject_resolves w)
      as [(j & p & w0' & [Hrun' Hp])|[_ Hnone]]; [|congruence].
    rewrite Hrun' in Hrun. simplify_eq. by exists p. }
  split.
  - intros imageName present. unfold image.
    rewrite (bind_Ok _ _ _ _ _ Hrun). destruct res as [i|]; [|done].
    destruct (Hvalid i eq_refl) as [p Hp]. run Hp.
    destruct (filePath p) as [dir|] eqn:Hdir; [|done].
    destruct (truthy_str imageName && negb (String.eqb dir "") && present)
      eqn:Hcond; [|done].
    split; [done|]. split; [done|]. intros dir' file [= <- <-].
    apply andb_true_iff in Hcond as [Hcond ->].
    apply andb_true_iff in Hcond as [Hname Hdirne].
    destruct imageName as [n|]; [|done]. cbn in Hname.
    apply negb_true_iff in Hname, Hdirne.
    split; [done|]. split; [by apply String.eqb_neq|].
    split; [by apply String.eqb_neq|]. split; [done|].
    by exists i, p.
  - intros failure. unfold finishRound.
    rewrite (bind_Ok _ _ _ _ _ Hrun).
    by destruct res as [i|]; destruct failure as [msg|].
Qed.

Lemma image_and_finishRound_read_only_witness :
  (image (Some "c.png") true dangling).2
  = (getActiveProject dangling).2
  ∧ (finishRound None dangling).2 = (getActiveProject dangling).2.
Proof.
  destruct (image_and_finishRound_read_only dangling
              (getActiveProject dangling).2 (Some 0%nat) eq_refl)
    as [Himage Hfinish].
  split.
  - apply Himage.
  - apply Hfinish.
Defined.

(** ** When a round can be advanced *)

(** X26.  The three answers of [nextRound] at an integer round N with
    -2^53 ≤ N < 2^53, and when each is given.  "No images selected":
    exactly when round N has no selection.  [requireConfirmation]: exactly
    when it has some, round N+1 has some too, and [force] is not set.
    Success: in all other cases, that is when round N has selections and
    round N+1 has none or [force] is set.  An unforced success leaves the
    entry of round N+1 as it found it, absent if it was absent. *)
Theorem nextRound_answers
    (w w0 : World) (i : nat) (p : Project) (N : Z) (force : value) :
  active w i p w0 →
  currentRound p = Int N →
  - 2 ^ 53 ≤ N < 2 ^ 53 →
  ∃ body w1,
    nextRound force w = (Ok (Json body), w1)
    ∧ (body = json_EmptySelection ↔ currentSelections p = [])
    ∧ (body = json_RequiresConfirmation
       ↔ currentSelections p ≠ []
         ∧ roundSelection_or_empty (Int (N + 1)) p ≠ []
         ∧ truthy force = false)
    ∧ (body = json_success
       ↔ currentSelections p ≠ []
         ∧ (roundSelection_or_empty (Int (N + 1)) p = []
            ∨ truthy force = true))
    ∧ (body = json_success → truthy force = false →
       ∃ p', projects (appData w1) !! i = Some p'
             ∧ roundSelection (Int (N + 1)) p'
               = roundSelection (Int (N + 1)) p).
Proof.
  intros Hact HN Hrange.
  pose proof (succ_exact N Hrange) as Hsucc.
  rewrite <- HN in Hsucc. rewrite <- Hsucc.
  assert (has_selections (roundSelection (succ (currentRound p)) p) = true
          ↔ roundSelection_or_empty (succ (currentRound p)) p ≠ []) as Hnext.
  { unfold roundSelection_or_empty.
    destruct (roundSelection (succ (currentRound p)) p) as [[|x l]|]; cbn.
    - rewrite bool_decide_eq_true. split; [lia|done].
    - rewrite bool_decide_eq_true. split; [done|lia].
    - done. }
  destruct (decide (currentSelections p = [])) as [Hsel|Hsel].
  { eexists _, w0. split; [by eapply nextRound_empty|].
    split; [done|]. split; [|split].
    - split; [done|]. by intros [? _].
    - split; [done|]. by intros [? _].
    - done. }
  destruct (has_selections (roundSelection (succ (currentRound p)) p)
            && negb (truthy force)) eqn:Hstop.
  { eexists _, w0. split; [by eapply nextRound_confirm|].
    apply andb_true_iff in Hstop as [Hhas Hforce].
    apply negb_true_iff in Hforce. apply Hnext in Hhas.
    split; [done|]. split; [done|]. split; [|done].
    split; [done|]. intros [_ [Hnone|Htrue]]; [done|congruence]. }
  destruct (nextRound_advance _ _ _ _ force Hact Hsel Hstop)
    as (w1 & Hrun & Hps & _).
  eexists _, w1. split; [exact Hrun|].
  split; [done|]. split; [|split].
  - split; [done|]. intros (_ & Hhas & Hforce).
    apply Hnext in Hhas. by rewrite Hhas, Hforce in Hstop.
  - split; [|done]. intros _. split; [done|].
    destruct (truthy force); [by right|left].
    rewrite andb_true_r in Hstop.
    destruct (decide (roundSelection_or_empty (succ (currentRound p)) p = []))
      as [Hnone|Hsome]; [done|].
    apply Hnext in Hsome. congruence.
  - intros _ Hforce. exists (advanced force p). split.
    { rewrite Hps. eapply insert_lookup_active, Hact. }
    unfold advanced. rewrite Hforce in *. rewrite andb_true_r in Hstop.
    by rewrite Hstop.
Qed.

Lemma nextRound_answers_witness :
  ∃ body w1,
    nextRound VUndefined
      (serve (PostToggleSelection (Some "a.png")) startup)
    = (Ok (Json body), w1)
    ∧ body = json_success.
Proof.
  destruct (nextRound_answers
              (serve (PostToggleSelection (Some "a.png")) startup)
              (serve (PostToggleSelection (Some "a.png")) startup) 0
              (toggled "a.png" defaultProject) 1 VUndefined)
    as (body & w1 & Hrun & _ & _ & Hsuccess & _).
  - split; reflexivity.
  - reflexivity.
  - lia.
  - exists body, w1. split; [exact Hrun|]. apply Hsuccess.
    split; [discriminate|]. left. reflexivity.
Defined.
